(** * ory-tunnel: the request/response rewriting pipeline of [src/main.ts]

    A shallow embedding of the proxy in [src/main.ts] together with the
    parts of the web platform it calls (ECMAScript strings, Fetch
    [Headers], [Request], [Response], WHATWG [URL]), and the properties
    of the rewriting pipeline proved over that embedding.

    Layout: the platform model first, then the program, function by
    function and under the names of the source, then the lemmas. *)

From Stdlib Require Import String Ascii Arith NArith ZArith List Bool Lia.
From Stdlib Require Import DecimalN.
Import ListNotations.
Open Scope N_scope.

(** ** Completions

    JavaScript code either returns a value or throws.  Only three error
    classes can be raised by the platform calls of [main.ts]. *)

Inductive exn : Type := TypeError | RangeError | URIError.

Inductive completion (A : Type) : Type :=
| Normal (a : A)
| Throw (e : exn).
Arguments Normal {A} a.
Arguments Throw {A} e.

Definition bind {A B : Type} (c : completion A) (k : A -> completion B)
  : completion B :=
  match c with
  | Normal a => k a
  | Throw e => Throw e
  end.

Notation "x <- c ;; k" := (bind c (fun x => k))
  (at level 61, c at next level, right associativity).

(** ** ECMAScript strings

    A string is its sequence of UTF-16 code units. *)

Definition jsstring : Type := list N.

(** [js "abc"] is the string literal: one code unit per character. *)
Definition js (s : string) : jsstring :=
  map N_of_ascii (list_ascii_of_string s).
Arguments js s%_string.

Module JSString.

Fixpoint eqb (a b : jsstring) : bool :=
  match a, b with
  | [], [] => true
  | x :: a', y :: b' => (x =? y) && eqb a' b'
  | _, _ => false
  end.

(** [s.startsWith(p)] *)
Fixpoint startsWith (s p : jsstring) {struct p} : bool :=
  match p, s with
  | [], _ => true
  | _ :: _, [] => false
  | x :: p', y :: s' => (x =? y) && startsWith s' p'
  end.

(** [a.join(sep)] on an array of strings. *)
Fixpoint join (sep : jsstring) (l : list jsstring) : jsstring :=
  match l with
  | [] => []
  | [x] => x
  | x :: r => x ++ sep ++ join sep r
  end.

(** GetSubstitution (ECMA-262, 22.1.3.19.1) for a string pattern: there
    are no captures and no named groups, so of the dollar forms only
    [$$], [$&], [$`] and [$'] are expanded; [$n] and [$<] stand for
    themselves.  Code unit 36 is the dollar sign. *)
Fixpoint GetSubstitution (matched before after template : jsstring)
  : jsstring :=
  match template with
  | [] => []
  | c :: t =>
      if c =? 36 then
        match t with
        | d :: t' =>
            if d =? 36 then 36 :: GetSubstitution matched before after t'
            else if d =? 38 then
              matched ++ GetSubstitution matched before after t'
            else if d =? 96 then
              before ++ GetSubstitution matched before after t'
            else if d =? 39 then
              after ++ GetSubstitution matched before after t'
            else c :: GetSubstitution matched before after t
        | [] => [c]
        end
      else c :: GetSubstitution matched before after t
  end.

(** [s.replace(pat, rep)] with a string pattern: the first occurrence
    only.  [before] is the text already scanned. *)
Fixpoint replace_from (pat rep before rest : jsstring) : jsstring :=
  if startsWith rest pat then
    GetSubstitution pat before (skipn (length pat) rest) rep
      ++ skipn (length pat) rest
  else
    match rest with
    | [] => []
    | c :: t => c :: replace_from pat rep (before ++ [c]) t
    end.

Definition replace (s pat rep : jsstring) : jsstring :=
  replace_from pat rep [] s.

(** [s.replaceAll(pat, rep)] with a string pattern: the occurrences are
    found from left to right, each search resuming after the previous
    match (one code unit further for the empty pattern).  [k] counts
    the code units of the current match still to be skipped. *)
Fixpoint replaceAll_from (pat rep before rest : jsstring) (k : nat)
  : jsstring :=
  match k, rest with
  | S k', c :: t => replaceAll_from pat rep (before ++ [c]) t k'
  | S _, [] => []
  | O, _ =>
      if startsWith rest pat then
        GetSubstitution pat before (skipn (length pat) rest) rep ++
        match rest with
        | [] => []
        | c :: t =>
            match length pat with
            | O => c :: replaceAll_from pat rep (before ++ [c]) t O
            | S l => replaceAll_from pat rep (before ++ [c]) t l
            end
        end
      else
        match rest with
        | [] => []
        | c :: t => c :: replaceAll_from pat rep (before ++ [c]) t O
        end
  end.

Definition replaceAll (s pat rep : jsstring) : jsstring :=
  replaceAll_from pat rep [] s O.

(** [s.split(sep)] for a non-empty separator; [cur] is the piece being
    collected and [k] the code units of the separator left to skip. *)
Fixpoint split_from (sep cur rest : jsstring) (k : nat) : list jsstring :=
  match k, rest with
  | S k', _ :: t => split_from sep cur t k'
  | S _, [] => [cur]
  | O, [] => [cur]
  | O, c :: t =>
      if startsWith rest sep then cur :: split_from sep [] t (length sep - 1)
      else split_from sep (cur ++ [c]) t O
  end.

(** With the empty separator [split] yields the code units one by one. *)
Definition split (s sep : jsstring) : list jsstring :=
  match sep with
  | [] => map (fun c => [c]) s
  | _ :: _ => split_from sep [] s O
  end.

(** [a.slice(-n)]: the last [n] elements, all of them if there are fewer. *)
Definition slice_last {A : Type} (n : nat) (l : list A) : list A :=
  skipn (length l - n) l.

(** WhiteSpace and LineTerminator code units (ECMA-262, 12.2 and 12.3). *)
Definition isWhiteSpace (c : N) : bool :=
  ((9 <=? c) && (c <=? 13)) || (c =? 32) || (c =? 160) || (c =? 5760)
  || ((8192 <=? c) && (c <=? 8202)) || (c =? 8232) || (c =? 8233)
  || (c =? 8239) || (c =? 8287) || (c =? 12288) || (c =? 65279).

Fixpoint dropWhile (p : N -> bool) (s : jsstring) : jsstring :=
  match s with
  | [] => []
  | c :: t => if p c then dropWhile p t else s
  end.

(** [s.trimStart()] *)
Definition trimStart (s : jsstring) : jsstring := dropWhile isWhiteSpace s.

(** *** encodeURIComponent (ECMA-262, 19.2.6.4 and Encode, 19.2.6.5) *)

(** The characters left alone: ASCII letters, digits and [-_.!~*'()]. *)
Definition unreserved (c : N) : bool :=
  ((65 <=? c) && (c <=? 90)) || ((97 <=? c) && (c <=? 122))
  || ((48 <=? c) && (c <=? 57))
  || (c =? 45) || (c =? 95) || (c =? 46) || (c =? 33) || (c =? 126)
  || (c =? 42) || (c =? 39) || (c =? 40) || (c =? 41).

Definition isLeadSurrogate (c : N) : bool := (0xD800 <=? c) && (c <=? 0xDBFF).
Definition isTrailSurrogate (c : N) : bool := (0xDC00 <=? c) && (c <=? 0xDFFF).

(** UTF16SurrogatePairToCodePoint *)
Definition codePoint (lead trail : N) : N :=
  (lead - 0xD800) * 0x400 + (trail - 0xDC00) + 0x10000.

(** The UTF-8 octets of a code point. *)
Definition utf8 (cp : N) : list N :=
  if cp <? 0x80 then [cp]
  else if cp <? 0x800 then
    [0xC0 + cp / 0x40; 0x80 + cp mod 0x40]
  else if cp <? 0x10000 then
    [0xE0 + cp / 0x1000; 0x80 + (cp / 0x40) mod 0x40; 0x80 + cp mod 0x40]
  else
    [0xF0 + cp / 0x40000; 0x80 + (cp / 0x1000) mod 0x40;
     0x80 + (cp / 0x40) mod 0x40; 0x80 + cp mod 0x40].

(** An upper-case hexadecimal digit. *)
Definition hexdigit (n : N) : N := if n <? 10 then 48 + n else 55 + n.

(** ["%XX"] for one octet. *)
Definition pct (b : N) : jsstring :=
  [37; hexdigit ((b / 16) mod 16); hexdigit (b mod 16)].

Definition pctAll (bs : list N) : jsstring := flat_map pct bs.

Fixpoint encodeURIComponent (s : jsstring) : completion jsstring :=
  match s with
  | [] => Normal []
  | c :: t =>
      if unreserved c then
        r <- encodeURIComponent t ;; Normal (c :: r)
      else if isLeadSurrogate c then
        match t with
        | d :: t' =>
            if isTrailSurrogate d then
              r <- encodeURIComponent t' ;;
              Normal (pctAll (utf8 (codePoint c d)) ++ r)
            else Throw URIError
        | [] => Throw URIError
        end
      else if isTrailSurrogate c then Throw URIError
      else
        r <- encodeURIComponent t ;; Normal (pctAll (utf8 c) ++ r)
  end.

End JSString.

(** ** Numbers out of [parseInt] (ECMA-262, 19.2.5)

    [parseInt] returns a double.  The integers up to 2^53 in magnitude
    are doubles themselves; beyond, the result is the nearest double,
    which is not modelled ([Inexact]).  The sign of zero is not kept. *)

Inductive number : Type :=
| NaN
| Int (z : Z)
| Inexact.

Module JSNumber.

(** The value of a code unit as a digit of the radix, if it is one. *)
Definition digitValue (radix c : N) : option N :=
  let v :=
    if (48 <=? c) && (c <=? 57) then Some (c - 48)
    else if (97 <=? c) && (c <=? 122) then Some (c - 87)
    else if (65 <=? c) && (c <=? 90) then Some (c - 55)
    else None in
  match v with
  | Some d => if d <? radix then Some d else None
  | None => None
  end.

(** The value of the longest prefix of [s] made of digits, on top of
    [acc]; [None] when [s] starts with no digit and none was [seen]. *)
Fixpoint digitsPrefix (radix : N) (s : jsstring) (acc : N) (seen : bool)
  : option N :=
  match s with
  | [] => if seen then Some acc else None
  | c :: t =>
      match digitValue radix c with
      | Some d => digitsPrefix radix t (acc * radix + d) true
      | None => if seen then Some acc else None
      end
  end.

(** The sign: a leading [-] or [+] is taken off. *)
Definition signOf (s : jsstring) : bool * jsstring :=
  match s with
  | c :: t =>
      if c =? 45 then (true, t) else if c =? 43 then (false, t) else (false, s)
  | [] => (false, s)
  end.

(** The radix: 16 after a [0x] or [0X] prefix, which is taken off, else
    10. *)
Definition radixOf (s : jsstring) : N * jsstring :=
  match s with
  | c :: x :: t =>
      if (c =? 48) && ((x =? 120) || (x =? 88)) then (16, t) else (10, s)
  | _ => (10, s)
  end.

(** [parseInt(string)] with no radix given. *)
Definition parseInt (string : jsstring) : number :=
  let '(negative, s1) := signOf (JSString.trimStart string) in
  let '(radix, s2) := radixOf s1 in
  match digitsPrefix radix s2 0 false with
  | None => NaN
  | Some m =>
      if m <=? 2 ^ 53
      then Int (if negative then - Z.of_N m else Z.of_N m)
      else Inexact
  end.

End JSNumber.

(** ** Bodies and the UTF-8 codec

    A body is modelled by the bytes it delivers.  [Response.text()] runs
    "UTF-8 decode" of the Encoding standard (a leading byte order mark is
    dropped, every malformed sequence becomes U+FFFD); a string given to
    the [Response] constructor is a [USVString], encoded back with
    "UTF-8 encode". *)

Definition bytes : Type := list Byte.byte.

Module Utf8.

(** State of the decoder: the code point being assembled, the number
    of continuation bytes still expected and the bounds of the next. *)
Record state : Type := mkState {
  cp : N;
  remaining : N;
  lower : N;
  upper : N
}.

Definition idle : state := mkState 0 0 0x80 0xBF.

(** A byte read when no sequence is open. *)
Definition start (b : N) : list N * state :=
  if b <=? 0x7F then ([b], idle)
  else if (0xC2 <=? b) && (b <=? 0xDF) then
    ([], mkState (N.land b 0x1F) 1 0x80 0xBF)
  else if (0xE0 <=? b) && (b <=? 0xEF) then
    ([], mkState (N.land b 0xF) 2
           (if b =? 0xE0 then 0xA0 else 0x80)
           (if b =? 0xED then 0x9F else 0xBF))
  else if (0xF0 <=? b) && (b <=? 0xF4) then
    ([], mkState (N.land b 0x7) 3
           (if b =? 0xF0 then 0x90 else 0x80)
           (if b =? 0xF4 then 0x8F else 0xBF))
  else ([0xFFFD], idle).

(** The decoder's handler, run over the whole input; a byte outside
    the expected bounds ends the open sequence with U+FFFD and is then
    read again as a first byte. *)
Fixpoint decode_from (st : state) (bs : list N) : list N :=
  match bs with
  | [] => if remaining st =? 0 then [] else [0xFFFD]
  | b :: t =>
      if remaining st =? 0 then
        let '(out, st') := start b in out ++ decode_from st' t
      else if (lower st <=? b) && (b <=? upper st) then
        let cp' := N.lor (N.shiftl (cp st) 6) (N.land b 0x3F) in
        if remaining st =? 1 then cp' :: decode_from idle t
        else decode_from (mkState cp' (remaining st - 1) 0x80 0xBF) t
      else
        0xFFFD :: (let '(out, st') := start b in out ++ decode_from st' t)
  end.

Definition stripBOM (bs : list N) : list N :=
  match bs with
  | 0xEF :: 0xBB :: 0xBF :: t => t
  | _ => bs
  end.

(** A code point as UTF-16 code units. *)
Definition utf16 (c : N) : jsstring :=
  if c <? 0x10000 then [c]
  else [0xD800 + (c - 0x10000) / 0x400; 0xDC00 + (c - 0x10000) mod 0x400].

(** The text of a body, as [Response.text()] returns it. *)
Definition decode (b : bytes) : jsstring :=
  flat_map utf16 (decode_from idle (stripBOM (map Byte.to_N b))).

(** The scalar values of a string: surrogate pairs are combined and a
    lone surrogate becomes U+FFFD (conversion to [USVString]). *)
Fixpoint scalars (s : jsstring) : list N :=
  match s with
  | [] => []
  | c :: t =>
      if JSString.isLeadSurrogate c then
        match t with
        | d :: t' =>
            if JSString.isTrailSurrogate d
            then JSString.codePoint c d :: scalars t'
            else 0xFFFD :: scalars t
        | [] => [0xFFFD]
        end
      else if JSString.isTrailSurrogate c then 0xFFFD :: scalars t
      else c :: scalars t
  end.

Definition byte_of_N (n : N) : Byte.byte :=
  match Byte.of_N n with
  | Some b => b
  | None => Byte.x00
  end.

Definition encode (s : jsstring) : bytes :=
  map byte_of_N (flat_map JSString.utf8 (scalars s)).

End Utf8.

(** ** Headers (Fetch standard, as implemented by Deno)

    A header list in insertion order.  Names are matched without regard
    to case and stored in lower case; values are byte strings.
    Deno applies no forbidden-header filtering, so the guard of a
    [Headers] object is not modelled.  Every name the program passes is a
    literal token, so the name check of the methods cannot fail and is
    left out. *)

Module Headers.

Definition t : Type := list (jsstring * jsstring).

Definition lower (s : jsstring) : jsstring :=
  map (fun c => if (65 <=? c) && (c <=? 90) then c + 32 else c) s.

Definition isHTTPWhitespace (c : N) : bool :=
  (c =? 9) || (c =? 10) || (c =? 13) || (c =? 32).

(** Normalising a value strips leading and trailing HTTP whitespace. *)
Definition normalize (v : jsstring) : jsstring :=
  rev (JSString.dropWhile isHTTPWhitespace
         (rev (JSString.dropWhile isHTTPWhitespace v))).

(** A byte allowed in a header value: a [ByteString] code unit other
    than NUL, LF and CR. *)
Definition valueByte (c : N) : bool :=
  (c <=? 255) && negb (c =? 0) && negb (c =? 10) && negb (c =? 13).

Definition validValue (v : jsstring) : bool := forallb valueByte v.

(** A header of the list goes by [name]: names match byte-case-
    insensitively. *)
Definition named (name : jsstring) (kv : jsstring * jsstring) : bool :=
  JSString.eqb (lower (fst kv)) (lower name).

(** The values stored under a name, in order ([getSetCookie] for
    Set-Cookie). *)
Definition values (h : t) (name : jsstring) : list jsstring :=
  map snd (filter (named name) h).

Definition has (h : t) (name : jsstring) : bool := existsb (named name) h.

(** [get]: [null] when absent, else the values joined by ", ". *)
Definition get (h : t) (name : jsstring) : option jsstring :=
  match values h name with
  | [] => None
  | vs => Some (JSString.join (js ", ") vs)
  end.

Definition delete (h : t) (name : jsstring) : t :=
  filter (fun kv => negb (named name kv)) h.

Definition append (h : t) (name value : jsstring) : completion t :=
  let v := normalize value in
  if validValue v then Normal (h ++ [(lower name, v)]) else Throw TypeError.

(** The first header of that name takes the value, the others go. *)
Fixpoint set_first (h : t) (name v : jsstring) : t :=
  match h with
  | [] => []
  | kv :: r =>
      if named name kv then (fst kv, v) :: delete r name
      else kv :: set_first r name v
  end.

Definition set (h : t) (name value : jsstring) : completion t :=
  let v := normalize value in
  if validValue v then
    Normal (if has h name then set_first h name v
            else h ++ [(lower name, v)])
  else Throw TypeError.

End Headers.

(** ** URL records (WHATWG URL standard)

    The record of a URL that has a host and no credentials, which is what
    the URL of a served request and [https://<host>] are.  [port] is
    [None] for the default port of the scheme; [query] and [fragment] are
    [None] when absent. *)

Module URL.

Record t : Type := mk {
  scheme : jsstring;
  hostname : jsstring;
  port : option N;
  pathname : jsstring;
  query : option jsstring;
  fragment : option jsstring
}.

Fixpoint digits (u : Decimal.uint) : jsstring :=
  match u with
  | Decimal.Nil => []
  | Decimal.D0 r => 48 :: digits r
  | Decimal.D1 r => 49 :: digits r
  | Decimal.D2 r => 50 :: digits r
  | Decimal.D3 r => 51 :: digits r
  | Decimal.D4 r => 52 :: digits r
  | Decimal.D5 r => 53 :: digits r
  | Decimal.D6 r => 54 :: digits r
  | Decimal.D7 r => 55 :: digits r
  | Decimal.D8 r => 56 :: digits r
  | Decimal.D9 r => 57 :: digits r
  end.

Definition decimal (n : N) : jsstring := digits (N.to_uint n).

(** [url.host]: the host name, and the port when it is not the default. *)
Definition host (u : t) : jsstring :=
  hostname u ++
  match port u with
  | Some p => js ":" ++ decimal p
  | None => []
  end.

(** The special schemes of the standard other than [file]. *)
Definition isSpecial (s : jsstring) : bool :=
  JSString.eqb s (js "http") || JSString.eqb s (js "https")
  || JSString.eqb s (js "ws") || JSString.eqb s (js "wss")
  || JSString.eqb s (js "ftp").

(** [url.origin]: the tuple origin of a special scheme, serialised;
    ["null"] for the other schemes covered by this record. *)
Definition origin (u : t) : jsstring :=
  if isSpecial (scheme u) then scheme u ++ js "://" ++ host u
  else js "null".

(** [url.href], the URL serialiser. *)
Definition href (u : t) : jsstring :=
  scheme u ++ js "://" ++ host u ++ pathname u
  ++ match query u with Some q => js "?" ++ q | None => [] end
  ++ match fragment u with Some f => js "#" ++ f | None => [] end.

(** [url.pathname = "/ui"]: the path becomes the single segment [ui]. *)
Definition set_pathname_ui (u : t) : t :=
  mk (scheme u) (hostname u) (port u) (js "/ui") (query u) (fragment u).

(** The hostname state of the URL parser run as a state override, as
    the [hostname] setter does: tabs and newlines are dropped, the
    buffer runs up to the first [/], [?], [#] (or [\] in a special
    URL), and a [:] outside brackets makes the setter give up. *)
Fixpoint hostname_buffer (special inBrackets : bool) (buf rest : jsstring)
  : option jsstring :=
  match rest with
  | [] => Some buf
  | c :: r =>
      if (c =? 58) && negb inBrackets then None
      else if (c =? 47) || (c =? 63) || (c =? 35) || (special && (c =? 92))
      then Some buf
      else
        hostname_buffer special
          (if c =? 91 then true else if c =? 93 then false else inBrackets)
          (buf ++ [c]) r
  end.

Definition isTabOrNewline (c : N) : bool :=
  (c =? 9) || (c =? 10) || (c =? 13).

Section Setter.

(** The host parser of the standard (percent-decoding, IDNA, IPv4 and
    IPv6 forms); its first argument is the [isOpaque] flag. *)
Variable parseHost : bool -> jsstring -> option jsstring.

(** The host the setter would install, [None] when it leaves the URL
    as it is. *)
Definition hostname_for (u : t) (v : jsstring) : option jsstring :=
  let special := isSpecial (scheme u) in
  match hostname_buffer special false []
          (filter (fun c => negb (isTabOrNewline c)) v) with
  | None => None
  | Some buf =>
      match buf with
      | [] =>
          if special then None
          else match port u with
               | Some _ => None
               | None => parseHost true []
               end
      | _ :: _ => parseHost (negb special) buf
      end
  end.

(** [url.hostname = v] *)
Definition set_hostname (u : t) (v : jsstring) : t :=
  match hostname_for u v with
  | Some h => mk (scheme u) h (port u) (pathname u) (query u) (fragment u)
  | None => u
  end.

End Setter.

End URL.

(** ** Requests and responses (Fetch standard) *)

(** What a body can be built from: a stream, passed on as it is, or a
    string. *)
Inductive BodyInit : Type :=
| Stream (b : bytes)
| Text (s : jsstring).

Module Request.

(** [url] is the record of the request's URL: [new URL(req.url)] parses
    the serialisation of that record and yields it back. *)
Record t : Type := mk {
  method : jsstring;
  url : URL.t;
  headers : Headers.t;
  body : option bytes
}.

Definition byteUpperCase (s : jsstring) : jsstring :=
  map (fun c => if (97 <=? c) && (c <=? 122) then c - 32 else c) s.

Definition oneOf (s : jsstring) (l : list jsstring) : bool :=
  existsb (JSString.eqb s) l.

Definition forbiddenMethod (m : jsstring) : bool :=
  oneOf (byteUpperCase m) [js "CONNECT"; js "TRACE"; js "TRACK"].

Definition normalizeMethod (m : jsstring) : jsstring :=
  if oneOf (byteUpperCase m)
       [js "DELETE"; js "GET"; js "HEAD"; js "OPTIONS"; js "POST"; js "PUT"]
  then byteUpperCase m else m.

(** [new Request(url, init)] with a request as [init]: method, headers
    and body are taken from it.  The header list is copied; the copy
    goes through the iterator of [init.headers], which keeps what
    [get], [has] and [getSetCookie] return, the only observations made
    here, so it is modelled by the list itself. *)
Definition new (u : URL.t) (init : t) : completion t :=
  if forbiddenMethod (method init) then Throw TypeError
  else
    let m := normalizeMethod (method init) in
    match body init with
    | Some _ =>
        if oneOf m [js "GET"; js "HEAD"] then Throw TypeError
        else Normal (mk m u (headers init) (body init))
    | None => Normal (mk m u (headers init) None)
    end.

Definition with_headers (r : t) (h : Headers.t) : t :=
  mk (method r) (url r) h (body r).

End Request.

Module Response.

Record t : Type := mk {
  status : N;
  statusText : jsstring;
  headers : Headers.t;
  body : option bytes
}.

Definition nullBodyStatus (s : N) : bool :=
  (s =? 101) || (s =? 103) || (s =? 204) || (s =? 205) || (s =? 304).

Definition redirectStatus (s : N) : bool :=
  (s =? 301) || (s =? 302) || (s =? 303) || (s =? 307) || (s =? 308).

(** The reason-phrase token production. *)
Definition reasonPhrase (s : jsstring) : bool :=
  forallb (fun c => (c =? 9) || (c =? 32) || ((33 <=? c) && (c <=? 126))
                    || ((128 <=? c) && (c <=? 255))) s.

(** [new Response(body, init)] with a response as [init]: status, status
    text and headers are taken from it (the header list is copied as in
    [Request.new]).  Deno takes a status within 200-599 and, beyond the
    Fetch standard, the status 101.  A string body brings its own
    Content-Type when the headers have none. *)
Definition new (b : option BodyInit) (init : t) : completion t :=
  if negb ((200 <=? status init) && (status init <=? 599)
           || (status init =? 101))
  then Throw RangeError
  else if negb (reasonPhrase (statusText init)) then Throw TypeError
  else
    match b with
    | None => Normal (mk (status init) (statusText init) (headers init) None)
    | Some bi =>
        if nullBodyStatus (status init) then Throw TypeError
        else
          match bi with
          | Stream bs =>
              Normal (mk (status init) (statusText init) (headers init)
                        (Some bs))
          | Text s =>
              let h :=
                if Headers.has (headers init) (js "Content-Type")
                then headers init
                else headers init
                       ++ [(js "content-type",
                            js "text/plain;charset=UTF-8")] in
              Normal (mk (status init) (statusText init) h
                        (Some (Utf8.encode s)))
          end
    end.

(** [Response.redirect(url, status)] for a URL object: the Location
    header carries the serialised URL and there is no body. *)
Definition redirect (u : URL.t) (s : N) : completion t :=
  if negb (redirectStatus s) then Throw RangeError
  else Normal (mk s [] [(js "location", URL.href u)] None).

Definition with_headers (r : t) (h : Headers.t) : t :=
  mk (status r) (statusText r) h (body r).

End Response.

(** * The program: [src/main.ts]

    Each function of the source under its own name.  A [Headers] object
    that the source mutates in place is threaded through as a value; a
    call that can throw returns a [completion]. *)

(** [Config] (lines 1-8). *)
Record OryConfig : Type := {
  projectHost : jsstring;
  apiKey : jsstring
}.

Record Config : Type := {
  port : N;
  appOrigin : jsstring;
  ory : OryConfig
}.

(** [Deno.Env]: [env.get(key)] is the value of the variable, or
    [undefined]. *)
Definition Env : Type := jsstring -> option jsstring.

(** [v ?? d] *)
Definition orElse (v : option jsstring) (d : jsstring) : jsstring :=
  match v with
  | Some s => s
  | None => d
  end.

(** What [newConfig] returns: the fields of [Config] with the port as
    [parseInt] gives it, which need not be a natural number. *)
Record LoadedConfig : Type := {
  loadedPort : number;
  loadedAppOrigin : jsstring;
  loadedOry : OryConfig
}.

(** [newConfig] (lines 10-24). *)
Definition newConfig (env : Env) : LoadedConfig :=
  let port := JSNumber.parseInt (orElse (env (js "PORT")) (js "8080")) in
  let appOrigin := orElse (env (js "APPLICATION_ORIGIN")) [] in
  let oryProjectHost := orElse (env (js "ORY_PROJECT_HOST")) [] in
  let oryApiKey := orElse (env (js "ORY_API_KEY")) [] in
  {| loadedPort := port;
     loadedAppOrigin := appOrigin;
     loadedOry := {| projectHost := oryProjectHost; apiKey := oryApiKey |} |}.

(** The [Config] of the handler, when the port is a natural number. *)
Definition asConfig (c : LoadedConfig) : option Config :=
  match loadedPort c with
  | Int z =>
      if (0 <=? z)%Z
      then Some {| port := Z.to_N z;
                   appOrigin := loadedAppOrigin c;
                   ory := loadedOry c |}
      else None
  | _ => None
  end.

(** [rewriteBody] (lines 26-40): [null] for no body, the body itself
    unless the Content-Type starts with [text/], else the rewritten
    text. *)
Definition rewriteBody (res : Response.t) (upstreamHost newOrigin : jsstring)
  : option BodyInit :=
  match Response.body res with
  | None => None
  | Some b =>
      match Headers.get (Response.headers res) (js "Content-Type") with
      | None => Some (Stream b)
      | Some contentType =>
          if negb (JSString.startsWith contentType (js "text/"))
          then Some (Stream b)
          else
            let content := Utf8.decode b in
            Some (Text (JSString.replaceAll content upstreamHost newOrigin))
      end
  end.

(** [cookieRewriters] (lines 47-51); the source notes: order matters,
    broadest to narrowest. *)
Definition cookieRewriters : list (URL.t -> jsstring) :=
  [ (fun url => URL.host url);
    (fun url =>
       JSString.join (js ".")
         (JSString.slice_last 2 (JSString.split (URL.host url) (js ".")))) ].

(** The callback of [reduce] (lines 60-65). *)
Definition rewriteWith (upstreamURL newURL : URL.t)
  (result : completion jsstring) (getURLComponent : URL.t -> jsstring)
  : completion jsstring :=
  r <- result ;;
  a <- JSString.encodeURIComponent (getURLComponent upstreamURL) ;;
  b <- JSString.encodeURIComponent (getURLComponent newURL) ;;
  Normal (JSString.replaceAll r a b).

(** The value appended for one piece of the split header: the [reduce]
    over the rewriters, started at [cookie.trimStart()]. *)
Definition rewriteCookie (upstreamURL newURL : URL.t) (cookie : jsstring)
  : completion jsstring :=
  fold_left (rewriteWith upstreamURL newURL) cookieRewriters
    (Normal (JSString.trimStart cookie)).

(** The [forEach] over the pieces (lines 57-67), threading the header
    list. *)
Fixpoint appendCookies (upstreamURL newURL : URL.t) (headers : Headers.t)
  (cookies : list jsstring) : completion Headers.t :=
  match cookies with
  | [] => Normal headers
  | cookie :: rest =>
      v <- rewriteCookie upstreamURL newURL cookie ;;
      headers' <- Headers.append headers (js "Set-Cookie") v ;;
      appendCookies upstreamURL newURL headers' rest
  end.

(** [rewriteCookieDomain] (lines 42-68). *)
Definition rewriteCookieDomain (headers : Headers.t)
  (upstreamURL newURL : URL.t) : completion Headers.t :=
  match Headers.get headers (js "Set-Cookie") with
  | None => Normal headers
  | Some setCookieHeader =>
      appendCookies upstreamURL newURL
        (Headers.delete headers (js "Set-Cookie"))
        (JSString.split setCookieHeader (js ","))
  end.

(** [rewriteLocation] (lines 70-80); the source calls [replace], not
    [replaceAll]. *)
Definition rewriteLocation (headers : Headers.t)
  (upstreamHost newOrigin : jsstring) : completion Headers.t :=
  match Headers.get headers (js "Location") with
  | None => Normal headers
  | Some locationHeader =>
      Headers.set headers (js "Location")
        (JSString.replace locationHeader upstreamHost newOrigin)
  end.

Section Tunnel.

(** The platform's URL parser at the strings the program builds
    ([new URL(s)] throws a TypeError where it fails), its host parser,
    and the upstream invoker: [fetch] with [redirect: "manual"]. *)
Variable parseURL : jsstring -> option URL.t.
Variable parseHost : bool -> jsstring -> option jsstring.
Variable fetch : Request.t -> completion Response.t.

(** [new URL(s)] *)
Definition constructURL (s : jsstring) : completion URL.t :=
  match parseURL s with
  | Some u => Normal u
  | None => Throw TypeError
  end.

(** [newRequestRewriter] (lines 82-93). *)
Definition newRequestRewriter (cfg : Config) (req : Request.t)
  : completion Request.t :=
  let url :=
    URL.set_hostname parseHost (Request.url req) (projectHost (ory cfg)) in
  proxyReq <- Request.new url req ;;
  h1 <- Headers.set (Request.headers proxyReq)
          (js "Ory-No-Custom-Domain-Redirect") (js "true") ;;
  h2 <- Headers.set h1 (js "Ory-Base-URL-Rewrite") (appOrigin cfg) ;;
  h3 <- Headers.set h2 (js "Ory-Base-URL-Rewrite-Token") (apiKey (ory cfg)) ;;
  h4 <- Headers.set h3 (js "Ory-Network-Ingress") (js "T") ;;
  Normal (Request.with_headers proxyReq h4).

(** [newResponseRewriter] (lines 95-115). *)
Definition newResponseRewriter (upstreamHost newOrigin : jsstring)
  (r : Response.t) : completion Response.t :=
  upstreamURL <- constructURL (js "https://" ++ upstreamHost) ;;
  let body := rewriteBody r (URL.origin upstreamURL) newOrigin in
  res <- Response.new body r ;;
  h1 <- (if Headers.has (Response.headers res) (js "Set-Cookie") then
           newURL <- constructURL newOrigin ;;
           rewriteCookieDomain (Response.headers res) upstreamURL newURL
         else Normal (Response.headers res)) ;;
  h2 <- (if Headers.has h1 (js "Location") then
           rewriteLocation h1 (URL.origin upstreamURL) newOrigin
         else Normal h1) ;;
  Normal (Response.with_headers res h2).

(** [newHandler] (lines 119-137): the response, paired with the
    requests handed to [fetch], in order. *)
Definition newHandler (cfg : Config) (req : Request.t)
  : list Request.t * completion Response.t :=
  let url := Request.url req in
  if JSString.eqb (URL.pathname url) (js "/") then
    ([], Response.redirect (URL.set_pathname_ui url) 303)
  else
    match newRequestRewriter cfg req with
    | Throw e => ([], Throw e)
    | Normal proxyReq =>
        ([proxyReq],
         res <- fetch proxyReq ;;
         newResponseRewriter (projectHost (ory cfg)) (appOrigin cfg) res)
    end.

End Tunnel.

(** * Vocabulary of the properties *)

(** [pat] occurs in [s]. *)
Definition occurs (pat s : jsstring) : Prop :=
  exists a b, s = a ++ pat ++ b.

(** Literal global substitution, in the words of the specification:
    every occurrence of [pat], taken from the left and without overlap,
    is replaced by [rep], and nothing else changes.  In the second rule
    [a] is the text before the leftmost occurrence: no occurrence starts
    inside it. *)
Inductive Substituted (pat rep : jsstring) : jsstring -> jsstring -> Prop :=
| Substituted_rest (s : jsstring) :
    ~ occurs pat s -> Substituted pat rep s s
| Substituted_next (a s out : jsstring) :
    ~ occurs pat (a ++ removelast pat) ->
    Substituted pat rep s out ->
    Substituted pat rep (a ++ pat ++ s) (a ++ rep ++ out).

(** A string that [Headers] stores as it is: normalised and valid. *)
Definition isValue (v : jsstring) : bool :=
  JSString.eqb (Headers.normalize v) v && Headers.validValue v.

(** The invariant of a [Headers] object: every value is one. *)
Definition wfHeaders (h : Headers.t) : bool :=
  forallb (fun kv => isValue (snd kv)) h.

(** An upstream response as [fetch] delivers it, which the [Response]
    constructor takes as its init: a status within 200-599, a reason
    phrase, no body under a null-body status, and header values as a
    [Headers] object holds them. *)
Definition fetched (r : Response.t) : bool :=
  (200 <=? Response.status r) && (Response.status r <=? 599)
  && Response.reasonPhrase (Response.statusText r)
  && (negb (Response.nullBodyStatus (Response.status r))
      || match Response.body r with None => true | Some _ => false end)
  && wfHeaders (Response.headers r).

(** A request the [Request] constructor takes: an HTTP(S) URL, a method
    that is not forbidden, no body on GET and HEAD. *)
Definition accepted (req : Request.t) : bool :=
  URL.isSpecial (URL.scheme (Request.url req))
  && negb (Request.forbiddenMethod (Request.method req))
  && match Request.body req with
     | None => true
     | Some _ =>
         negb (Request.oneOf (Request.normalizeMethod (Request.method req))
                 [js "GET"; js "HEAD"])
     end.

(** The host of a parsed URL is ASCII. *)
Definition asciiHost (u : URL.t) : bool :=
  forallb (fun c => c <? 128) (URL.host u).

(** The response is treated as text: its Content-Type starts with
    [text/]. *)
Definition textual (r : Response.t) : bool :=
  match Headers.get (Response.headers r) (js "Content-Type") with
  | None => false
  | Some contentType => JSString.startsWith contentType (js "text/")
  end.

(** The registrable domain as the second cookie rewriter computes it. *)
Definition registrable (u : URL.t) : jsstring :=
  JSString.join (js ".")
    (JSString.slice_last 2 (JSString.split (URL.host u) (js "."))).

(** The URL of the request with the path replaced by [/ui], serialised. *)
Definition uiLocation (u : URL.t) : jsstring :=
  URL.scheme u ++ js "://" ++ URL.host u ++ js "/ui"
  ++ match URL.query u with Some q => js "?" ++ q | None => [] end
  ++ match URL.fragment u with Some f => js "#" ++ f | None => [] end.

(** A search for [pat] in [s], deciding [occurs]. *)
Fixpoint occursb (pat s : jsstring) : bool :=
  JSString.startsWith s pat
  || match s with
     | [] => false
     | _ :: t => occursb pat t
     end.

(** The URL-encoded form of an ASCII string, for which
    [encodeURIComponent] cannot throw. *)
Definition encoded (s : jsstring) : jsstring :=
  match JSString.encodeURIComponent s with
  | Normal e => e
  | Throw _ => []
  end.

(** A byte of a header value other than the dollar sign: a string of such
    bytes is taken literally as a replacement and is a valid value. *)
Definition plain (c : N) : bool := Headers.valueByte c && negb (c =? 36).

(** No occurrence of [pat] in [a ++ rest] starts inside [a]. *)
Definition unmatched (pat a rest : jsstring) : Prop :=
  forall x y, a = x ++ y -> y <> [] ->
    JSString.startsWith (y ++ rest) pat = false.

(** A host name the [hostname] setter installs as it is given: nothing
    for the setter to cut and already in the parser's output form. *)
Definition canonicalHost (parseHost : bool -> jsstring -> option jsstring)
  (h : jsstring) : Prop :=
  JSString.eqb h [] = false
  /\ URL.hostname_buffer true false []
       (filter (fun c => negb (URL.isTabOrNewline c)) h) = Some h
  /\ parseHost false h = Some h.

(** The four control headers, by name. *)
Definition controlNames : list jsstring :=
  [js "Ory-No-Custom-Domain-Redirect"; js "Ory-Base-URL-Rewrite";
   js "Ory-Base-URL-Rewrite-Token"; js "Ory-Network-Ingress"].

(** The body the rewriter returns for [r]. *)
Definition bodyOut (r : Response.t) (upstreamOrigin newOrigin : jsstring)
  : option bytes :=
  match Response.body r with
  | None => None
  | Some b =>
      if textual r
      then Some (Utf8.encode
                   (JSString.replaceAll (Utf8.decode b) upstreamOrigin newOrigin))
      else Some b
  end.

(** The two passes over one piece of the Set-Cookie value, for the
    encoded hosts [a], [b] and the encoded registrable domains [c], [d]. *)
Definition passes (a b c d cookie : jsstring) : jsstring :=
  JSString.replaceAll
    (JSString.replaceAll (JSString.trimStart cookie) a b) c d.

(** The header list after the cookie step and after the location step. *)
Definition cookieResult (a b c d : jsstring) (h : Headers.t) : Headers.t :=
  match Headers.get h (js "Set-Cookie") with
  | None => h
  | Some s =>
      Headers.delete h (js "Set-Cookie")
      ++ map (fun ck => (js "set-cookie", Headers.normalize (passes a b c d ck)))
           (JSString.split s (js ","))
  end.

Definition locationResult (upstreamOrigin newOrigin : jsstring) (h : Headers.t)
  : Headers.t :=
  match Headers.get h (js "Location") with
  | None => h
  | Some l =>
      Headers.set_first h (js "Location")
        (Headers.normalize (JSString.replace l upstreamOrigin newOrigin))
  end.

(** The header list the rewriter returns. *)
Definition headersOut (newOrigin : jsstring) (upstreamURL publicURL : URL.t)
  (h : Headers.t) : Headers.t :=
  locationResult (URL.origin upstreamURL) newOrigin
    (cookieResult (encoded (URL.host upstreamURL))
       (encoded (URL.host publicURL))
       (encoded (registrable upstreamURL))
       (encoded (registrable publicURL)) h).

(** The bytes allowed in a header value, all along a string. *)
Definition valueBytes (s : jsstring) : Prop :=
  Forall (fun c => Headers.valueByte c = true) s.

(** The bytes of an ASCII literal. *)
Definition ascii_bytes (s : string) : bytes := map Utf8.byte_of_N (js s).
Arguments ascii_bytes s%_string.

(** ** The running example of the specification

    [upstreamHost = upstream.example.com] and
    [publicOrigin = https://app.example.org]; the parsers are given at
    the strings of the example only. *)

Definition upstreamExample : URL.t :=
  URL.mk (js "https") (js "upstream.example.com") None (js "/") None None.

Definition publicExample : URL.t :=
  URL.mk (js "https") (js "app.example.org") None (js "/") None None.

Definition parseExample (s : jsstring) : option URL.t :=
  if JSString.eqb s (js "https://upstream.example.com")
  then Some upstreamExample
  else if JSString.eqb s (js "https://app.example.org")
  then Some publicExample
  else None.

Definition parseHostExample (isOpaque : bool) (h : jsstring)
  : option jsstring :=
  if JSString.eqb h (js "upstream.example.com") then Some h else None.

Definition configExample : Config :=
  {| port := 8080;
     appOrigin := js "https://app.example.org";
     ory := {| projectHost := js "upstream.example.com";
               apiKey := js "ory_pat_example" |} |}.

(** Requests: one reaching the proxy under its public origin, one sent
    to a local listener over plain HTTP, and one for the root path. *)
Definition loginRequest : Request.t :=
  Request.mk (js "GET")
    (URL.mk (js "https") (js "app.example.org") None
       (js "/self-service/login/browser") (Some (js "refresh=true")) None)
    [(js "accept", js "text/html");
     (js "ory-base-url-rewrite", js "https://elsewhere.example")]
    None.

Definition localRequest : Request.t :=
  Request.mk (js "POST")
    (URL.mk (js "http") (js "localhost") (Some 8080)
       (js "/self-service/login") (Some (js "flow=1")) None)
    [(js "content-type", js "application/json")]
    (Some (ascii_bytes "{}")).

(** A request whose method is written [get] and which has a body: the
    server hands the method on as it is written. *)
Definition getWithBody : Request.t :=
  Request.mk (js "get")
    (URL.mk (js "https") (js "app.example.org") None (js "/sessions/whoami")
       None None)
    [(js "ory-network-ingress", js "X")]
    (Some (ascii_bytes "{}")).

Definition traceRequest : Request.t :=
  Request.mk (js "TRACE")
    (URL.mk (js "https") (js "app.example.org") None (js "/sessions/whoami")
       None None)
    [] None.

Definition localRootRequest : Request.t :=
  Request.mk (js "GET")
    (URL.mk (js "http") (js "localhost") (Some 8080) (js "/") None None)
    [] None.

Definition rootRequest : Request.t :=
  Request.mk (js "GET")
    (URL.mk (js "https") (js "app.example.org") None (js "/")
       (Some (js "flow=abc")) None)
    [] None.

(** Upstream responses. *)
Definition redirectOnce : Response.t :=
  Response.mk 302 (js "Found")
    [(js "location", js "https://upstream.example.com/callback?x=1")] None.

Definition redirectTwice : Response.t :=
  Response.mk 302 (js "Found")
    [(js "location",
      js "https://upstream.example.com/self-service/login?return_to=https://upstream.example.com/ui/welcome")]
    None.

Definition cookieResponse : Response.t :=
  Response.mk 200 (js "OK")
    [(js "set-cookie", js "session=abc; Domain=upstream.example.com")] None.

Definition twoCookies : Response.t :=
  Response.mk 200 (js "OK")
    [(js "set-cookie",
      js "session=abc; Domain=upstream.example.com, csrf=xyz; Domain=example.com")]
    None.

(** Two cookies, the first with a comma in its Expires date. *)
Definition twoCookiesExpires : Response.t :=
  Response.mk 200 (js "OK")
    [(js "set-cookie",
      js "session=abc; Expires=Wed, 21 Oct 2026 07:28:00 GMT, csrf=xyz; Path=/")]
    None.

Definition expiresCookie : Response.t :=
  Response.mk 200 (js "OK")
    [(js "set-cookie",
      js "session=abc; Expires=Wed, 21 Oct 2026 07:28:00 GMT; Path=/")]
    None.

Definition cleanResponse : Response.t :=
  Response.mk 303 (js "See Other")
    [(js "content-type", js "text/html; charset=utf-8");
     (js "set-cookie", js "theme=dark; Path=/");
     (js "set-cookie", js "lang=en; Path=/");
     (js "location", js "/ui/welcome")]
    (Some (ascii_bytes "<p>Welcome back</p>")).

Definition pageBody : bytes :=
  ascii_bytes
    "<a href='https://upstream.example.com/a'>https://upstream.example.com</a>".

Definition htmlResponse : Response.t :=
  Response.mk 200 (js "OK")
    [(js "content-type", js "text/html; charset=utf-8")] (Some pageBody).

Definition octetResponse : Response.t :=
  Response.mk 200 (js "OK")
    [(js "content-type", js "application/octet-stream")] (Some pageBody).

(** A JSON object with the key [ui]; code unit 34 is the double quote. *)
Definition jsonBody : bytes :=
  map Utf8.byte_of_N
    (js "{" ++ [34] ++ js "ui" ++ [34] ++ js ":" ++ [34]
     ++ js "https://upstream.example.com/ui" ++ [34] ++ js "}").

Definition jsonResponse : Response.t :=
  Response.mk 200 (js "OK")
    [(js "content-type", js "application/json")] (Some jsonBody).

Definition fetchExample (req : Request.t) : completion Response.t :=
  Normal redirectOnce.

(** ** Further vocabulary and example data *)

(** The text after a number ends it: it is empty or starts with a code
    unit that is neither a decimal digit nor [x] or [X]. *)
Definition endsNumber (tail : jsstring) : bool :=
  match tail with
  | [] => true
  | c :: _ =>
      negb ((48 <=? c) && (c <=? 57)) && negb (c =? 120) && negb (c =? 88)
  end.

(** An environment with nothing but a blank PORT. *)
Definition blankPortEnv : Env :=
  fun key => if JSString.eqb key (js "PORT") then Some (js "  ") else None.

Definition port3000Env : Env :=
  fun key =>
    if JSString.eqb key (js "PORT") then Some (js "3000/tcp") else None.

Definition asciiUnits (s : jsstring) : bool := forallb (fun c => c <? 128) s.

Definition status999 : Response.t :=
  Response.mk 999 (js "Request denied") [] None.

Definition markedResponse : Response.t :=
  Response.mk 200 (js "OK") [(js "content-type", js "text/plain")]
    (Some (Byte.xef :: Byte.xbb :: Byte.xbf :: ascii_bytes "hello")).

(** A configuration whose API key was read with a line break inside. *)
Definition brokenConfig : Config :=
  {| port := 8080;
     appOrigin := js "https://app.example.org";
     ory := {| projectHost := js "upstream.example.com";
               apiKey := js "ory_pat" ++ [10] ++ js "example" |} |}.

(** * Lemmas *)

Import JSString.

Ltac to_prop :=
  repeat rewrite ?andb_true_iff, ?orb_true_iff, ?negb_true_iff,
    ?N.leb_le, ?N.ltb_lt, ?N.eqb_eq, ?N.eqb_neq in *.

Ltac distinct := let E := fresh in intros E; vm_compute in E; discriminate E.

(** ** The platform model on small inputs *)

Example replaceAll_overlap :
  JSString.replaceAll (js "aaa") (js "aa") (js "b") = js "ba".
Proof. reflexivity. Qed.

Example replaceAll_empty_pattern :
  JSString.replaceAll (js "abc") [] (js "-") = js "-a-b-c-".
Proof. reflexivity. Qed.

Example replaceAll_dollar_forms :
  JSString.replaceAll (js "xabcy") (js "abc") (js "[$&|$`|$'|$$|$1]")
  = js "x[abc|x|y|$|$1]y".
Proof. reflexivity. Qed.

Example replace_first_only :
  JSString.replace (js "a.b.c") (js ".") (js "-") = js "a-b.c".
Proof. reflexivity. Qed.

Example split_keeps_empty_pieces :
  JSString.split (js "a,b,,c,") (js ",") = [js "a"; js "b"; []; js "c"; []].
Proof. reflexivity. Qed.

Example split_of_empty : JSString.split [] (js ",") = [[]].
Proof. reflexivity. Qed.

Example last_two_labels :
  registrable upstreamExample = js "example.com".
Proof. reflexivity. Qed.

Example encodeURIComponent_reserved :
  JSString.encodeURIComponent (js "localhost:8080")
  = Normal (js "localhost%3A8080").
Proof. reflexivity. Qed.

Example encodeURIComponent_astral :
  JSString.encodeURIComponent [0xE9; 0x20AC; 0xD83D; 0xDE00]
  = Normal (js "%C3%A9%E2%82%AC%F0%9F%98%80").
Proof. reflexivity. Qed.

Example encodeURIComponent_lone_surrogate :
  JSString.encodeURIComponent [0xD83D] = Throw URIError.
Proof. reflexivity. Qed.

Example trimStart_leading_only :
  JSString.trimStart (js "  a b ") = js "a b ".
Proof. reflexivity. Qed.

Example decode_malformed :
  Utf8.decode [Byte.xef; Byte.xbb; Byte.xbf; Byte.x41; Byte.xc3; Byte.xa9;
               Byte.xe0; Byte.x80; Byte.x80; Byte.xf0; Byte.x9f; Byte.x98;
               Byte.x80; Byte.xe2; Byte.x82]
  = [0x41; 0xE9; 0xFFFD; 0xFFFD; 0xFFFD; 0xD83D; 0xDE00; 0xFFFD].
Proof. reflexivity. Qed.

Example encode_lone_surrogate :
  Utf8.encode [0x41; 0xD83D; 0x42]
  = [Byte.x41; Byte.xef; Byte.xbf; Byte.xbd; Byte.x42].
Proof. reflexivity. Qed.

Example headers_get_joins :
  Headers.get [(js "set-cookie", js "a=1"); (js "vary", js "x");
               (js "set-cookie", js "b=2")] (js "Set-Cookie")
  = Some (js "a=1, b=2").
Proof. reflexivity. Qed.

Example headers_set_replaces :
  Headers.set [(js "x", js "1"); (js "y", js "2"); (js "x", js "3")]
    (js "X") (js " 4 ")
  = Normal [(js "x", js "4"); (js "y", js "2")].
Proof. reflexivity. Qed.

Example headers_append_rejects :
  Headers.append [] (js "x") (js "a" ++ [10] ++ js "b") = Throw TypeError.
Proof. reflexivity. Qed.

Example hostname_setter_stops_at_slash :
  URL.hostname_buffer true false [] (js "a.example/x") = Some (js "a.example").
Proof. reflexivity. Qed.

Example hostname_setter_refuses_port :
  URL.hostname_buffer true false [] (js "a.example:8443") = None.
Proof. reflexivity. Qed.

Example href_with_port_and_query :
  URL.href (Request.url localRequest)
  = js "http://localhost:8080/self-service/login?flow=1".
Proof. reflexivity. Qed.

(** ** Strings: prefixes and absent patterns *)

Section StringFacts.

Lemma jseqb_eq (a b : jsstring) : eqb a b = true <-> a = b.
Proof.
  revert b; induction a as [|x a IH]; intros [|y b]; simpl; split;
    try congruence; try reflexivity.
  - intros H. apply andb_true_iff in H as [H1 H2].
    apply N.eqb_eq in H1. apply IH in H2. congruence.
  - intros H. injection H as -> ->. rewrite N.eqb_refl. simpl. now apply IH.
Qed.

Lemma jseqb_refl (a : jsstring) : eqb a a = true.
Proof. now apply jseqb_eq. Qed.

Lemma jseqb_neq (a b : jsstring) : eqb a b = false <-> a <> b.
Proof.
  split.
  - intros H E. apply jseqb_eq in E. congruence.
  - intros H. destruct (eqb a b) eqn:E; [apply jseqb_eq in E; contradiction | reflexivity].
Qed.

Lemma startsWith_app (p t : jsstring) : startsWith (p ++ t) p = true.
Proof. induction p as [|x p IH]; simpl; [reflexivity|]. now rewrite N.eqb_refl. Qed.

Lemma startsWith_inv (s p : jsstring) :
  startsWith s p = true -> exists t, s = p ++ t.
Proof.
  revert s; induction p as [|x p IH]; intros s H.
  - now exists s.
  - destruct s as [|y s]; simpl in H; [discriminate|].
    apply andb_true_iff in H as [H1 H2]. apply N.eqb_eq in H1. subst y.
    destruct (IH _ H2) as [t ->]. now exists t.
Qed.

Lemma startsWith_iff (s p : jsstring) :
  startsWith s p = true <-> exists t, s = p ++ t.
Proof.
  split; [apply startsWith_inv|]. intros [t ->]. apply startsWith_app.
Qed.

Lemma startsWith_skipn (s p : jsstring) :
  startsWith s p = true -> s = p ++ skipn (length p) s.
Proof.
  intros H. destruct (startsWith_inv _ _ H) as [t ->].
  now rewrite skipn_app, skipn_all, Nat.sub_diag.
Qed.

Lemma GetSubstitution_literal (m b a rep : jsstring) :
  ~ In 36 rep -> GetSubstitution m b a rep = rep.
Proof.
  induction rep as [|c t IH]; intros H; [reflexivity|].
  simpl. destruct (N.eqb_spec c 36) as [->|_].
  - exfalso. apply H. now left.
  - f_equal. apply IH. intros H'. apply H. now right.
Qed.

Lemma not_occurs_tail (pat : jsstring) (c : N) (t : jsstring) :
  ~ occurs pat (c :: t) -> ~ occurs pat t.
Proof. intros H [a [b ->]]. apply H. now exists (c :: a), b. Qed.

Lemma not_occurs_startsWith (pat s : jsstring) :
  ~ occurs pat s -> startsWith s pat = false.
Proof.
  intros H. destruct (startsWith s pat) eqn:E; [|reflexivity].
  exfalso. apply H. destruct (startsWith_inv _ _ E) as [t ->]. now exists [], t.
Qed.

Lemma replaceAll_from_absent (pat rep before rest : jsstring) :
  ~ occurs pat rest -> replaceAll_from pat rep before rest 0 = rest.
Proof.
  revert before; induction rest as [|c t IH]; intros before H; simpl;
    rewrite (not_occurs_startsWith _ _ H); [reflexivity|].
  f_equal. apply IH. eapply not_occurs_tail; eauto.
Qed.

Lemma replaceAll_absent (s pat rep : jsstring) :
  ~ occurs pat s -> replaceAll s pat rep = s.
Proof. apply replaceAll_from_absent. Qed.



Lemma replaceAll_from_skip (pat rep before x rest : jsstring) :
  replaceAll_from pat rep before (x ++ rest) (length x)
  = replaceAll_from pat rep (before ++ x) rest 0.
Proof.
  revert before; induction x as [|c x IH]; intros before; simpl.
  - now rewrite app_nil_r.
  - rewrite IH. now rewrite <- app_assoc.
Qed.

(** At an occurrence the replacement is emitted and the scan resumes
    after it. *)
Lemma replaceAll_from_match (pat rep before s : jsstring) :
  pat <> [] ->
  replaceAll_from pat rep before (pat ++ s) 0
  = GetSubstitution pat before s rep
    ++ replaceAll_from pat rep (before ++ pat) s 0.
Proof.
  intros Hp. destruct pat as [|c p]; [contradiction|].
  change (replaceAll_from (c :: p) rep before ((c :: p) ++ s) 0)
    with (if startsWith ((c :: p) ++ s) (c :: p)
          then GetSubstitution (c :: p) before
                 (skipn (length (c :: p)) ((c :: p) ++ s)) rep
               ++ replaceAll_from (c :: p) rep (before ++ [c]) (p ++ s) (length p)
          else c :: replaceAll_from (c :: p) rep (before ++ [c]) (p ++ s) 0).
  rewrite startsWith_app, skipn_app, skipn_all, Nat.sub_diag. simpl skipn.
  rewrite replaceAll_from_skip, <- app_assoc. reflexivity.
Qed.

End StringFacts.

Lemma startsWith_nil (p : jsstring) : p <> [] -> startsWith [] p = false.
Proof. now destruct p. Qed.

Lemma replaceAll_from_nil (p rep before : jsstring) :
  p <> [] -> replaceAll_from p rep before [] 0 = [].
Proof. intros H. simpl. now rewrite startsWith_nil. Qed.

Lemma length_nonempty (p : jsstring) : p <> [] -> (0 < length p)%nat.
Proof. destruct p; [contradiction | simpl; lia]. Qed.

Section Substitution.

Variables pat rep : jsstring.
Hypothesis pat_nonempty : pat <> [].
Hypothesis rep_literal : ~ In 36 rep.

Lemma unmatched_nil (rest : jsstring) : unmatched pat [] rest.
Proof.
  intros x y E Hy. symmetry in E. apply app_eq_nil in E as [_ E]. contradiction.
Qed.

Lemma unmatched_snoc (a : jsstring) (c : N) (t : jsstring) :
  unmatched pat a (c :: t) -> startsWith (c :: t) pat = false -> unmatched pat (a ++ [c]) t.
Proof.
  intros Ha Hc x y E Hy.
  destruct (exists_last Hy) as [y' [c' ->]].
  rewrite app_assoc in E. apply app_inj_tail in E as [E ->].
  rewrite <- app_assoc. simpl.
  destruct y' as [|d y']; [exact Hc|].
  apply (Ha x (d :: y')); [assumption | discriminate].
Qed.

Lemma length_removelast (l : jsstring) :
  l <> [] -> S (length (removelast l)) = length l.
Proof.
  intros H. destruct (exists_last H) as [l' [c ->]].
  rewrite removelast_last, length_app. simpl. lia.
Qed.

Lemma unmatched_not_occurs (a s : jsstring) :
  unmatched pat a (pat ++ s) -> ~ occurs pat (a ++ removelast pat).
Proof.
  intros Ha [x [b E]].
  destruct (exists_last pat_nonempty) as [p' [c Ep]].
  symmetry in E. apply app_eq_app in E as [l [[E1 E2] | [E1 E2]]].
  - apply (f_equal (@length N)) in E2.
    rewrite !length_app in E2.
    pose proof (length_removelast pat pat_nonempty). lia.
  - destruct l as [|d l].
    + simpl in E2. apply (f_equal (@length N)) in E2.
      rewrite !length_app in E2.
      pose proof (length_removelast pat pat_nonempty). lia.
    + assert (H : startsWith ((d :: l) ++ pat ++ s) pat = true).
      { apply startsWith_iff. exists (b ++ [c] ++ s).
        rewrite Ep at 1. rewrite <- (removelast_last p' c), <- Ep.
        rewrite !app_assoc. rewrite <- E2. now rewrite <- !app_assoc. }
      rewrite (Ha x (d :: l) E1) in H; [discriminate | discriminate].
Qed.

Lemma unmatched_end (a : jsstring) : unmatched pat a [] -> ~ occurs pat a.
Proof.
  intros Ha [x [b E]].
  assert (H : startsWith ((pat ++ b) ++ []) pat = true).
  { rewrite <- app_assoc. apply startsWith_app. }
  rewrite (Ha x (pat ++ b) E) in H; [discriminate|].
  intros E'. apply app_eq_nil in E' as [E' _]. contradiction.
Qed.

Lemma replaceAll_from_Substituted (n : nat) :
  forall rest a before,
    (length rest <= n)%nat -> unmatched pat a rest ->
    Substituted pat rep (a ++ rest)
      (a ++ replaceAll_from pat rep before rest 0).
Proof.
  induction n as [|n IH]; intros rest a before Hn Ha.
  - destruct rest; [|simpl in Hn; lia].
    rewrite replaceAll_from_nil by assumption.
    apply Substituted_rest. rewrite app_nil_r. apply unmatched_end. assumption.
  - destruct (startsWith rest pat) eqn:E.
    + rewrite (startsWith_skipn _ _ E) in *.
      set (s := skipn (length pat) rest) in *.
      rewrite replaceAll_from_match by assumption.
      rewrite GetSubstitution_literal by assumption.
      apply Substituted_next.
      * eapply unmatched_not_occurs; eauto.
      * apply (IH s [] (before ++ pat)); [|apply unmatched_nil].
        rewrite length_app in Hn.
        pose proof (length_nonempty pat pat_nonempty). lia.
    + destruct rest as [|c t].
      * rewrite replaceAll_from_nil by assumption.
        apply Substituted_rest. rewrite app_nil_r. apply unmatched_end. assumption.
      * assert (R : replaceAll_from pat rep before (c :: t) 0
                    = c :: replaceAll_from pat rep (before ++ [c]) t 0).
        { simpl. now rewrite E. }
        rewrite R.
        change (a ++ c :: t) with (a ++ [c] ++ t).
        change (a ++ c :: replaceAll_from pat rep (before ++ [c]) t 0)
          with (a ++ [c] ++ replaceAll_from pat rep (before ++ [c]) t 0).
        rewrite !app_assoc. apply IH.
        -- simpl in Hn. lia.
        -- apply unmatched_snoc; assumption.
Qed.

Lemma replaceAll_Substituted (s : jsstring) :
  Substituted pat rep s (replaceAll s pat rep).
Proof.
  apply (replaceAll_from_Substituted (length s) s [] []);
    [lia | apply unmatched_nil].
Qed.

End Substitution.

(** ** Substitution keeps the code units within a class *)

Section Preservation.

Variable P : N -> Prop.
Variables pat rep : jsstring.
Hypothesis rep_literal : ~ In 36 rep.
Hypothesis rep_P : Forall P rep.

Lemma Forall_skipn (n : nat) (l : jsstring) : Forall P l -> Forall P (skipn n l).
Proof.
  intros H. rewrite <- (firstn_skipn n l) in H.
  now apply Forall_app in H as [_ H].
Qed.

Lemma replaceAll_from_Forall (rest : jsstring) :
  forall before k,
    Forall P rest -> Forall P (replaceAll_from pat rep before rest k).
Proof.
  induction rest as [|c t IH]; intros before k H.
  - destruct k; simpl; [|constructor].
    destruct (startsWith [] pat); [|constructor].
    rewrite GetSubstitution_literal, app_nil_r by assumption. assumption.
  - inversion H as [|? ? Hc Ht]; subst.
    destruct k as [|k]; simpl; [|now apply IH].
    destruct (startsWith (c :: t) pat).
    + rewrite GetSubstitution_literal by assumption.
      apply Forall_app. split; [assumption|].
      destruct (length pat); [constructor; [assumption|]|]; now apply IH.
    + constructor; [assumption | now apply IH].
Qed.

Lemma replaceAll_Forall (s : jsstring) :
  Forall P s -> Forall P (replaceAll s pat rep).
Proof. apply replaceAll_from_Forall. Qed.

Lemma replace_from_Forall (rest : jsstring) :
  forall before, Forall P rest -> Forall P (replace_from pat rep before rest).
Proof.
  induction rest as [|c t IH]; intros before H.
  - simpl. destruct (startsWith [] pat); [|constructor].
    rewrite GetSubstitution_literal by assumption.
    rewrite skipn_nil, app_nil_r. assumption.
  - inversion H as [|? ? Hc Ht]; subst.
    unfold replace_from; fold replace_from.
    destruct (startsWith (c :: t) pat).
    + rewrite GetSubstitution_literal by assumption.
      apply Forall_app. split; [assumption | now apply Forall_skipn].
    + constructor; [assumption | now apply IH].
Qed.

Lemma replace_Forall (s : jsstring) :
  Forall P s -> Forall P (replace s pat rep).
Proof. apply replace_from_Forall. Qed.

End Preservation.

(** ** [encodeURIComponent] *)

Lemma unreserved_plain (c : N) : unreserved c = true -> plain c = true.
Proof.
  unfold unreserved, plain, Headers.valueByte. intros H. to_prop. lia.
Qed.

Lemma hexdigit_plain (n : N) : n < 16 -> plain (hexdigit n) = true.
Proof.
  intros H. unfold hexdigit, plain, Headers.valueByte.
  destruct (N.ltb_spec n 10); to_prop; lia.
Qed.

Lemma pct_plain (b : N) : forallb plain (pct b) = true.
Proof.
  unfold pct. simpl.
  rewrite !hexdigit_plain by (apply N.mod_lt; discriminate). reflexivity.
Qed.

Lemma pctAll_plain (bs : list N) : forallb plain (pctAll bs) = true.
Proof.
  induction bs as [|b bs IH]; [reflexivity|].
  unfold pctAll in *.
  change (flat_map pct (b :: bs)) with (pct b ++ flat_map pct bs).
  rewrite forallb_app, IH, pct_plain. reflexivity.
Qed.

Lemma bind_Normal {A B : Type} (c : completion A) (k : A -> completion B) (b : B) :
  (x <- c ;; k x) = Normal b -> exists a, c = Normal a /\ k a = Normal b.
Proof. destruct c as [a|e]; simpl; [now exists a | discriminate]. Qed.

Lemma encodeURIComponent_plain_upto (n : nat) :
  forall s e, (length s <= n)%nat ->
    encodeURIComponent s = Normal e -> forallb plain e = true.
Proof.
  induction n as [|n IH]; intros s e Hn H.
  - destruct s; [|simpl in Hn; lia]. simpl in H. now injection H as <-.
  - destruct s as [|c t]; [simpl in H; now injection H as <-|].
    simpl in Hn. simpl in H.
    destruct (unreserved c) eqn:U.
    + apply bind_Normal in H as [r [Hr H]]. injection H as <-.
      simpl. rewrite (unreserved_plain _ U). apply (IH t); [lia | assumption].
    + destruct (isLeadSurrogate c).
      * destruct t as [|d t']; [discriminate|].
        destruct (isTrailSurrogate d); [|discriminate].
        apply bind_Normal in H as [r [Hr H]]. injection H as <-.
        rewrite forallb_app, pctAll_plain. simpl.
        apply (IH t'); [simpl in Hn; lia | assumption].
      * destruct (isTrailSurrogate c); [discriminate|].
        apply bind_Normal in H as [r [Hr H]]. injection H as <-.
        rewrite forallb_app, pctAll_plain. simpl.
        apply (IH t); [lia | assumption].
Qed.

Lemma encodeURIComponent_plain (s e : jsstring) :
  encodeURIComponent s = Normal e -> forallb plain e = true.
Proof. apply (encodeURIComponent_plain_upto (length s)). lia. Qed.

Lemma encodeURIComponent_ascii (s : jsstring) :
  forallb (fun c => c <? 128) s = true ->
  exists e, encodeURIComponent s = Normal e.
Proof.
  induction s as [|c t IH]; intros H; [now exists []|].
  simpl in H. apply andb_true_iff in H as [Hc Ht].
  destruct (IH Ht) as [r Hr]. simpl. rewrite Hr. simpl.
  destruct (unreserved c); [eauto|].
  assert (L : isLeadSurrogate c = false).
  { unfold isLeadSurrogate. apply N.ltb_lt in Hc.
    destruct (N.leb_spec 0xD800 c); [lia | reflexivity]. }
  assert (T : isTrailSurrogate c = false).
  { unfold isTrailSurrogate. apply N.ltb_lt in Hc.
    destruct (N.leb_spec 0xDC00 c); [lia | reflexivity]. }
  rewrite L, T. eauto.
Qed.

Lemma pctAll_utf8_nonempty (c : N) : pctAll (utf8 c) <> [].
Proof.
  unfold utf8.
  destruct (c <? 0x80); [discriminate|].
  destruct (c <? 0x800); [discriminate|].
  destruct (c <? 0x10000); discriminate.
Qed.

Lemma encodeURIComponent_nonempty (s e : jsstring) :
  encodeURIComponent s = Normal e -> s <> [] -> e <> [].
Proof.
  intros H Hs. destruct s as [|c t]; [contradiction|]. simpl in H.
  destruct (unreserved c).
  - apply bind_Normal in H as [r [_ H]]. injection H as <-. discriminate.
  - destruct (isLeadSurrogate c).
    + destruct t as [|d t']; [discriminate|].
      destruct (isTrailSurrogate d); [|discriminate].
      apply bind_Normal in H as [r [_ H]]. injection H as <-.
      intros E. apply app_eq_nil in E as [E _]. now apply pctAll_utf8_nonempty in E.
    + destruct (isTrailSurrogate c); [discriminate|].
      apply bind_Normal in H as [r [_ H]]. injection H as <-.
      intros E. apply app_eq_nil in E as [E _]. now apply pctAll_utf8_nonempty in E.
Qed.

Lemma plain_literal (e : jsstring) : forallb plain e = true -> ~ In 36 e.
Proof.
  intros H Hin. rewrite forallb_forall in H. apply H in Hin. discriminate.
Qed.

Lemma plain_valueByte (e : jsstring) :
  forallb plain e = true -> Forall (fun c => Headers.valueByte c = true) e.
Proof.
  intros H. apply Forall_forall. intros x Hx.
  rewrite forallb_forall in H. apply H in Hx.
  unfold plain in Hx. now apply andb_true_iff in Hx as [Hx _].
Qed.

(** ** [split] and [join] at a one-unit separator *)

Lemma split_from_step (c : N) (cur : jsstring) (d : N) (t : jsstring) :
  split_from [c] cur (d :: t) 0
  = if c =? d then cur :: split_from [c] [] t 0
    else split_from [c] (cur ++ [d]) t 0.
Proof. simpl. now rewrite andb_true_r. Qed.

Lemma split_from_free (c : N) (a : jsstring) :
  ~ In c a -> forall cur rest,
  split_from [c] cur (a ++ rest) 0 = split_from [c] (cur ++ a) rest 0.
Proof.
  induction a as [|d a IH]; intros H cur rest.
  - now rewrite app_nil_r.
  - change ((d :: a) ++ rest) with (d :: a ++ rest).
    rewrite split_from_step.
    destruct (N.eqb_spec c d) as [->|_]; [exfalso; apply H; now left|].
    rewrite IH by (intros H'; apply H; now right).
    now rewrite <- app_assoc.
Qed.

Lemma split_free (c : N) (a : jsstring) : ~ In c a -> split a [c] = [a].
Proof.
  intros H. unfold split.
  pose proof (split_from_free c a H [] []) as E.
  rewrite app_nil_r in E. exact E.
Qed.

Lemma split_at (c : N) (a s : jsstring) :
  ~ In c a -> split (a ++ c :: s) [c] = a :: split s [c].
Proof.
  intros H. unfold split. rewrite split_from_free by assumption.
  rewrite split_from_step, N.eqb_refl. reflexivity.
Qed.



Lemma join_cons (sep x : jsstring) (l : list jsstring) :
  l <> [] -> join sep (x :: l) = x ++ sep ++ join sep l.
Proof. destruct l; [contradiction | reflexivity]. Qed.

Lemma split_from_nonempty (c : N) (rest cur : jsstring) :
  split_from [c] cur rest 0 <> [].
Proof.
  revert cur; induction rest as [|d t IH]; intros cur; [discriminate|].
  rewrite split_from_step. destruct (c =? d); [discriminate | apply IH].
Qed.

Lemma join_split_from (c : N) (rest : jsstring) :
  forall cur, join [c] (split_from [c] cur rest 0) = cur ++ rest.
Proof.
  induction rest as [|d t IH]; intros cur.
  - simpl. now rewrite app_nil_r.
  - rewrite split_from_step. destruct (N.eqb_spec c d) as [->|_].
    + rewrite join_cons by apply split_from_nonempty. now rewrite IH.
    + rewrite IH. now rewrite <- app_assoc.
Qed.

Lemma join_split (c : N) (s : jsstring) : join [c] (split s [c]) = s.
Proof. apply (join_split_from c s []). Qed.


(** ** [trimStart] *)


Lemma dropWhile_Forall (P : N -> Prop) (p : N -> bool) (s : jsstring) :
  Forall P s -> Forall P (dropWhile p s).
Proof.
  induction 1 as [|c t Hc Ht IH]; simpl; [constructor|].
  destruct (p c); [assumption | now constructor].
Qed.

Lemma normalize_Forall (P : N -> Prop) (s : jsstring) :
  Forall P s -> Forall P (Headers.normalize s).
Proof.
  intros H. unfold Headers.normalize.
  apply Forall_rev, dropWhile_Forall, Forall_rev, dropWhile_Forall, H.
Qed.

Lemma forallb_Forall (p : N -> bool) (s : jsstring) :
  forallb p s = true <-> Forall (fun c => p c = true) s.
Proof. rewrite forallb_forall, Forall_forall. reflexivity. Qed.

(** ** The last two labels of a host *)

Lemma join_nonempty (sep : jsstring) (l : list jsstring) :
  sep <> [] -> (2 <= length l)%nat -> join sep l <> [].
Proof.
  intros Hs Hl. destruct l as [|x [|y l]]; simpl in Hl; try lia.
  rewrite join_cons by discriminate.
  intros E. apply app_eq_nil in E as [_ E]. apply app_eq_nil in E as [E _].
  contradiction.
Qed.

Lemma last_two_labels_nonempty (h : jsstring) :
  h <> [] -> join (js ".") (slice_last 2 (split h (js "."))) <> [].
Proof.
  intros H. change (js ".") with [46]. unfold slice_last.
  destruct (Nat.le_gt_cases (length (split h [46])) 2) as [L|L].
  - replace (length (split h [46%N]) - 2)%nat with 0%nat by lia.
    rewrite skipn_O, join_split. exact H.
  - apply join_nonempty; [discriminate|].
    rewrite length_skipn. lia.
Qed.

(** ** Header lists *)

Section HeaderFacts.

Import Headers.

Lemma lower_idempotent (n : jsstring) : lower (lower n) = lower n.
Proof.
  unfold lower. rewrite map_map. apply map_ext. intros c.
  destruct ((65 <=? c) && (c <=? 90)) eqn:E; [|now rewrite E].
  apply andb_true_iff in E as [E1 E2].
  apply N.leb_le in E1. apply N.leb_le in E2.
  destruct (N.leb_spec (c + 32) 90) as [L|L]; [lia|].
  now rewrite andb_false_r.
Qed.

Lemma named_self (n v : jsstring) : named n (lower n, v) = true.
Proof. unfold named. simpl. rewrite lower_idempotent. apply jseqb_refl. Qed.

Lemma named_other (m n v : jsstring) :
  lower m <> lower n -> named m (lower n, v) = false.
Proof.
  intros H. unfold named. simpl. rewrite lower_idempotent.
  apply jseqb_neq. congruence.
Qed.

Lemma named_exclusive (m n : jsstring) (kv : jsstring * jsstring) :
  lower m <> lower n -> named m kv = true -> named n kv = false.
Proof.
  unfold named. intros H Hm. apply jseqb_eq in Hm. apply jseqb_neq. congruence.
Qed.

Lemma values_app (h h' : t) (n : jsstring) :
  values (h ++ h') n = values h n ++ values h' n.
Proof. unfold values. now rewrite filter_app, map_app. Qed.

Lemma values_delete_same (h : t) (n : jsstring) : values (delete h n) n = [].
Proof.
  unfold values, delete. induction h as [|kv h IH]; [reflexivity|].
  simpl. destruct (named n kv) eqn:E; simpl; [assumption|].
  now rewrite E.
Qed.

Lemma values_delete_other (h : t) (m n : jsstring) :
  lower m <> lower n -> values (delete h n) m = values h m.
Proof.
  intros H. unfold values, delete. induction h as [|kv h IH]; [reflexivity|].
  simpl. destruct (named m kv) eqn:Em.
  - rewrite (named_exclusive _ _ _ H Em). simpl. rewrite Em. simpl. now f_equal.
  - destruct (named n kv); simpl; [assumption|]. now rewrite Em.
Qed.

Lemma values_entries (n : jsstring) (vs : list jsstring) :
  values (map (fun v => (lower n, v)) vs) n = vs.
Proof.
  unfold values. induction vs as [|v vs IH]; [reflexivity|].
  simpl. rewrite named_self. simpl. now f_equal.
Qed.

Lemma values_entries_other (m n : jsstring) (vs : list jsstring) :
  lower m <> lower n -> values (map (fun v => (lower n, v)) vs) m = [].
Proof.
  intros H. unfold values. induction vs as [|v vs IH]; [reflexivity|].
  simpl. now rewrite (named_other _ _ _ H).
Qed.

Lemma has_values (h : t) (n : jsstring) :
  has h n = match values h n with [] => false | _ :: _ => true end.
Proof.
  unfold has, values. induction h as [|kv h IH]; [reflexivity|].
  simpl. destruct (named n kv); [reflexivity | assumption].
Qed.

Lemma get_values (h : t) (n v : jsstring) :
  get h n = Some v -> values h n <> [] /\ v = JSString.join (js ", ") (values h n).
Proof.
  unfold get. destruct (values h n); [discriminate|].
  intros E. injection E as <-. split; [discriminate | reflexivity].
Qed.

Lemma get_has (h : t) (n : jsstring) :
  has h n = match get h n with None => false | Some _ => true end.
Proof. rewrite has_values. unfold get. now destruct (values h n). Qed.

Lemma get_by_values (h h' : t) (n : jsstring) :
  values h' n = values h n -> get h' n = get h n.
Proof. unfold get. now intros ->. Qed.

Lemma values_set_first_same (h : t) (n v : jsstring) :
  has h n = true -> values (set_first h n v) n = [v].
Proof.
  unfold has. induction h as [|kv h IH]; [discriminate|].
  simpl. destruct (named n kv) eqn:E.
  - intros _. unfold values. simpl.
    assert (E' : named n (fst kv, v) = true) by exact E.
    rewrite E'. simpl. f_equal. apply values_delete_same.
  - simpl. intros H. unfold values in *. simpl. rewrite E. now apply IH.
Qed.

Lemma values_set_first_other (h : t) (m n v : jsstring) :
  lower m <> lower n -> values (set_first h n v) m = values h m.
Proof.
  intros H. induction h as [|kv h IH]; [reflexivity|].
  simpl. destruct (named n kv) eqn:E.
  - assert (Em : named m kv = false).
    { destruct (named m kv) eqn:Em; [|reflexivity].
      rewrite (named_exclusive _ _ _ H Em) in E. discriminate. }
    unfold values at 1 2. simpl.
    assert (Em' : named m (fst kv, v) = false) by exact Em.
    rewrite Em', Em. apply (values_delete_other h m n H).
  - unfold values in *. simpl. destruct (named m kv); simpl; now rewrite IH.
Qed.

Lemma isValue_normalize (v : jsstring) :
  isValue v = true -> normalize v = v /\ validValue v = true.
Proof.
  unfold isValue. intros H. apply andb_true_iff in H as [H1 H2].
  apply jseqb_eq in H1. now split.
Qed.

(** [set] with a normalised valid value. *)
Lemma set_value (h : t) (n v : jsstring) :
  isValue v = true ->
  exists h', set h n v = Normal h'
             /\ values h' n = [v]
             /\ forall m, lower m <> lower n -> values h' m = values h m.
Proof.
  intros H. apply isValue_normalize in H as [Hn Hv].
  unfold set. rewrite Hn, Hv. eexists. split; [reflexivity|].
  destruct (has h n) eqn:E.
  - split; [now apply values_set_first_same|].
    intros m Hm. now apply values_set_first_other.
  - split.
    + rewrite values_app. rewrite has_values in E.
      destruct (values h n); [|discriminate].
      apply (values_entries n [v]).
    + intros m Hm. rewrite values_app.
      change [(lower n, v)] with (map (fun v => (lower n, v)) [v]).
      rewrite (values_entries_other m n [v] Hm). apply app_nil_r.
Qed.

Lemma values_In (h : t) (n v : jsstring) :
  In v (values h n) -> In v (map snd h).
Proof.
  unfold values. intros H. apply in_map_iff in H as [kv [E H]].
  apply filter_In in H as [H _]. apply in_map_iff. now exists kv.
Qed.

Lemma wfHeaders_values (h : t) (n : jsstring) :
  wfHeaders h = true -> Forall (fun v => isValue v = true) (values h n).
Proof.
  intros H. apply Forall_forall. intros v Hv.
  apply values_In in Hv. apply in_map_iff in Hv as [kv [<- Hkv]].
  unfold wfHeaders in H. rewrite forallb_forall in H. now apply H.
Qed.

End HeaderFacts.

(** ** The request rewriter *)

Section RequestFacts.

Variable parseHost : bool -> jsstring -> option jsstring.

Lemma hostname_for_canonical (u : URL.t) (h : jsstring) :
  URL.isSpecial (URL.scheme u) = true ->
  canonicalHost parseHost h ->
  URL.hostname_for parseHost u h = Some h.
Proof.
  intros Hs [Hne [Hb Hp]]. unfold URL.hostname_for. rewrite Hs, Hb.
  destruct h; [discriminate | exact Hp].
Qed.

Lemma set_hostname_frame (u : URL.t) (v : jsstring) :
  let u' := URL.set_hostname parseHost u v in
  URL.scheme u' = URL.scheme u /\ URL.port u' = URL.port u
  /\ URL.pathname u' = URL.pathname u /\ URL.query u' = URL.query u
  /\ URL.fragment u' = URL.fragment u.
Proof.
  unfold URL.set_hostname. destruct (URL.hostname_for parseHost u v);
    simpl; repeat split.
Qed.

(** With an empty host given, the setter leaves an HTTP(S) URL as it
    is. *)
Lemma set_hostname_empty (u : URL.t) :
  URL.isSpecial (URL.scheme u) = true -> URL.set_hostname parseHost u [] = u.
Proof.
  intros H. unfold URL.set_hostname, URL.hostname_for. simpl. now rewrite H.
Qed.

Lemma set_hostname_installed (u : URL.t) (v h : jsstring) :
  URL.hostname_for parseHost u v = Some h ->
  URL.hostname (URL.set_hostname parseHost u v) = h.
Proof. unfold URL.set_hostname. now intros ->. Qed.

Lemma Request_new_accepted (u : URL.t) (req : Request.t) :
  accepted req = true ->
  Request.new u req
  = Normal (Request.mk (Request.normalizeMethod (Request.method req)) u
              (Request.headers req) (Request.body req)).
Proof.
  unfold accepted, Request.new. intros H.
  apply andb_true_iff in H as [H Hb]. apply andb_true_iff in H as [_ Hm].
  apply negb_true_iff in Hm. rewrite Hm.
  destruct (Request.body req); [|reflexivity].
  apply negb_true_iff in Hb. now rewrite Hb.
Qed.

Lemma newRequestRewriter_spec (cfg : Config) (req : Request.t) :
  accepted req = true ->
  isValue (appOrigin cfg) = true ->
  isValue (apiKey (ory cfg)) = true ->
  exists out,
    newRequestRewriter parseHost cfg req = Normal out
    /\ Request.url out
       = URL.set_hostname parseHost (Request.url req) (projectHost (ory cfg))
    /\ Request.method out = Request.normalizeMethod (Request.method req)
    /\ Request.body out = Request.body req
    /\ Headers.values (Request.headers out)
         (js "Ory-No-Custom-Domain-Redirect") = [js "true"]
    /\ Headers.values (Request.headers out) (js "Ory-Base-URL-Rewrite")
       = [appOrigin cfg]
    /\ Headers.values (Request.headers out) (js "Ory-Base-URL-Rewrite-Token")
       = [apiKey (ory cfg)]
    /\ Headers.values (Request.headers out) (js "Ory-Network-Ingress")
       = [js "T"]
    /\ forall m,
         ~ In (Headers.lower m) (map Headers.lower controlNames) ->
         Headers.values (Request.headers out) m
         = Headers.values (Request.headers req) m.
Proof.
  intros Ha Ho Hk. unfold newRequestRewriter.
  rewrite (Request_new_accepted _ _ Ha). cbn [bind Request.headers].
  destruct (set_value (Request.headers req)
              (js "Ory-No-Custom-Domain-Redirect") (js "true") eq_refl)
    as [h1 [E1 [S1 O1]]].
  rewrite E1. cbn [bind].
  destruct (set_value h1 (js "Ory-Base-URL-Rewrite") _ Ho)
    as [h2 [E2 [S2 O2]]].
  rewrite E2. cbn [bind].
  destruct (set_value h2 (js "Ory-Base-URL-Rewrite-Token") _ Hk)
    as [h3 [E3 [S3 O3]]].
  rewrite E3. cbn [bind].
  destruct (set_value h3 (js "Ory-Network-Ingress") (js "T") eq_refl)
    as [h4 [E4 [S4 O4]]].
  rewrite E4. cbn [bind].
  eexists. split; [reflexivity|].
  cbn [Request.with_headers Request.url Request.method Request.body
       Request.headers].
  repeat split.
  - rewrite O4, O3, O2 by distinct. exact S1.
  - rewrite O4, O3 by distinct. exact S2.
  - rewrite O4 by distinct. exact S3.
  - exact S4.
  - intros m Hm. simpl in Hm.
    rewrite O4, O3, O2, O1; [reflexivity | | | |];
      intros E; apply Hm; rewrite E; simpl; tauto.
Qed.

End RequestFacts.

(** ** Classes of code units through [split] and [join] *)

Section Classes.

Variable P : N -> Prop.

Lemma split_from_Forall (c : N) (rest : jsstring) :
  forall cur, Forall P cur -> Forall P rest ->
  Forall (Forall P) (JSString.split_from [c] cur rest 0).
Proof.
  induction rest as [|d t IH]; intros cur Hc Hr.
  - simpl. now repeat constructor.
  - inversion Hr; subst. rewrite split_from_step. destruct (c =? d).
    + constructor; [assumption|]. now apply IH.
    + apply IH; [|assumption]. apply Forall_app. now split; [|repeat constructor].
Qed.

Lemma split_Forall (c : N) (s : jsstring) :
  Forall P s -> Forall (Forall P) (JSString.split s [c]).
Proof. intros H. now apply split_from_Forall. Qed.

Lemma join_Forall (sep : jsstring) (l : list jsstring) :
  Forall P sep -> Forall (Forall P) l -> Forall P (JSString.join sep l).
Proof.
  intros Hs. induction 1 as [|x l Hx Hl IH]; [constructor|].
  destruct l as [|y l]; [exact Hx|].
  rewrite join_cons by discriminate.
  apply Forall_app. split; [assumption|]. apply Forall_app. now split.
Qed.

Lemma Forall_skipn_gen {A : Type} (Q : A -> Prop) (n : nat) (l : list A) :
  Forall Q l -> Forall Q (skipn n l).
Proof.
  intros H. rewrite <- (firstn_skipn n l) in H.
  now apply Forall_app in H as [_ H].
Qed.

Lemma registrable_Forall (u : URL.t) :
  P 46 -> Forall P (URL.host u) -> Forall P (registrable u).
Proof.
  intros Hd Hh. unfold registrable, JSString.slice_last.
  apply join_Forall; [now repeat constructor|].
  apply Forall_skipn_gen. change (js ".") with [46]. now apply split_Forall.
Qed.

End Classes.

Lemma encode_host (u : URL.t) :
  asciiHost u = true ->
  exists e, JSString.encodeURIComponent (URL.host u) = Normal e.
Proof. apply encodeURIComponent_ascii. Qed.

Lemma encode_registrable (u : URL.t) :
  asciiHost u = true ->
  exists e, JSString.encodeURIComponent (registrable u) = Normal e.
Proof.
  intros H. apply encodeURIComponent_ascii. apply forallb_Forall.
  apply registrable_Forall; [reflexivity|]. now apply forallb_Forall.
Qed.

(** The origin of an [https] URL is [https://] and its host. *)
Lemma origin_https (u : URL.t) :
  URL.scheme u = js "https" -> URL.origin u = js "https://" ++ URL.host u.
Proof. unfold URL.origin. now intros ->. Qed.

Lemma origin_nonempty (u : URL.t) : URL.origin u <> [].
Proof.
  unfold URL.origin. destruct (URL.isSpecial (URL.scheme u)); [|discriminate].
  intros E. apply app_eq_nil in E as [_ E]. discriminate.
Qed.

(** ** The response rewriter *)

Lemma isValue_valueBytes (v : jsstring) : isValue v = true -> valueBytes v.
Proof.
  intros H. apply isValue_normalize in H as [_ H]. now apply forallb_Forall.
Qed.

Section CookieFacts.

Variables upstreamURL newURL : URL.t.
Variables a b c d : jsstring.
Hypothesis enc_a : JSString.encodeURIComponent (URL.host upstreamURL) = Normal a.
Hypothesis enc_b : JSString.encodeURIComponent (URL.host newURL) = Normal b.
Hypothesis enc_c :
  JSString.encodeURIComponent (registrable upstreamURL) = Normal c.
Hypothesis enc_d : JSString.encodeURIComponent (registrable newURL) = Normal d.

Lemma rewriteCookie_passes (cookie : jsstring) :
  rewriteCookie upstreamURL newURL cookie = Normal (passes a b c d cookie).
Proof.
  unfold rewriteCookie, cookieRewriters, rewriteWith, passes.
  cbn [fold_left bind]. rewrite enc_a, enc_b. cbn [bind].
  fold (registrable upstreamURL). fold (registrable newURL).
  rewrite enc_c, enc_d. reflexivity.
Qed.

Lemma passes_valueBytes (cookie : jsstring) :
  valueBytes cookie -> valueBytes (passes a b c d cookie).
Proof.
  intros H. unfold passes.
  pose proof (encodeURIComponent_plain _ _ enc_b) as Pb.
  pose proof (encodeURIComponent_plain _ _ enc_d) as Pd.
  apply replaceAll_Forall;
    [now apply plain_literal | now apply plain_valueByte |].
  apply replaceAll_Forall;
    [now apply plain_literal | now apply plain_valueByte |].
  now apply dropWhile_Forall.
Qed.

Lemma appendCookies_eq (cookies : list jsstring) :
  forall h,
  Forall valueBytes cookies ->
  appendCookies upstreamURL newURL h cookies
  = Normal (h ++ map (fun ck => (js "set-cookie",
                                 Headers.normalize (passes a b c d ck)))
                  cookies).
Proof.
  induction cookies as [|ck cookies IH]; intros h H.
  - simpl. now rewrite app_nil_r.
  - inversion H as [|? ? Hck Hr]; subst.
    cbn [appendCookies]. rewrite rewriteCookie_passes. cbn [bind].
    unfold Headers.append.
    assert (V : Headers.validValue (Headers.normalize (passes a b c d ck)) = true).
    { apply forallb_Forall. apply normalize_Forall. now apply passes_valueBytes. }
    rewrite V. cbn [bind]. rewrite (IH _ Hr).
    rewrite <- app_assoc. reflexivity.
Qed.

Lemma rewriteCookieDomain_eq (h : Headers.t) :
  wfHeaders h = true ->
  rewriteCookieDomain h upstreamURL newURL = Normal (cookieResult a b c d h).
Proof.
  intros W. unfold rewriteCookieDomain, cookieResult.
  destruct (Headers.get h (js "Set-Cookie")) as [s|] eqn:G; [|reflexivity].
  apply appendCookies_eq.
  apply get_values in G as [_ ->].
  change (js ",") with [44]. apply split_Forall.
  apply join_Forall; [now repeat constructor|].
  eapply Forall_impl; [|apply (wfHeaders_values _ _ W)].
  intros v Hv. now apply isValue_valueBytes.
Qed.

Lemma cookieResult_values (h : Headers.t) :
  Headers.values (cookieResult a b c d h) (js "Set-Cookie")
  = match Headers.get h (js "Set-Cookie") with
    | None => []
    | Some s =>
        map (fun ck => Headers.normalize (passes a b c d ck))
          (JSString.split s (js ","))
    end.
Proof.
  unfold cookieResult.
  destruct (Headers.get h (js "Set-Cookie")) as [s|] eqn:G.
  - rewrite values_app, values_delete_same. cbn [app].
    rewrite <- (map_map (passes a b c d)
                  (fun v => (js "set-cookie", Headers.normalize v))).
    rewrite <- (map_map Headers.normalize (fun v => (js "set-cookie", v))).
    rewrite <- (map_map (passes a b c d) Headers.normalize).
    apply (values_entries (js "Set-Cookie")).
  - unfold Headers.get in G. now destruct (Headers.values h (js "Set-Cookie")).
Qed.

Lemma cookieResult_other (h : Headers.t) (m : jsstring) :
  Headers.lower m <> js "set-cookie" ->
  Headers.values (cookieResult a b c d h) m = Headers.values h m.
Proof.
  intros H. unfold cookieResult.
  destruct (Headers.get h (js "Set-Cookie")) as [s|]; [|reflexivity].
  rewrite values_app, values_delete_other by exact H.
  rewrite <- (map_map (passes a b c d)
                (fun v => (js "set-cookie", Headers.normalize v))).
  rewrite <- (map_map Headers.normalize (fun v => (js "set-cookie", v))).
  rewrite (values_entries_other m (js "Set-Cookie")) by exact H.
  apply app_nil_r.
Qed.

End CookieFacts.

Section LocationFacts.

Variables upstreamOrigin newOrigin : jsstring.
Hypothesis origin_plain : forallb plain newOrigin = true.

Lemma rewriteLocation_eq (h : Headers.t) :
  Forall valueBytes (Headers.values h (js "Location")) ->
  rewriteLocation h upstreamOrigin newOrigin
  = Normal (locationResult upstreamOrigin newOrigin h).
Proof.
  intros W. unfold rewriteLocation, locationResult.
  destruct (Headers.get h (js "Location")) as [l|] eqn:G; [|reflexivity].
  unfold Headers.set.
  assert (V : Headers.validValue
                (Headers.normalize (JSString.replace l upstreamOrigin newOrigin))
              = true).
  { apply forallb_Forall, normalize_Forall.
    apply replace_Forall;
      [now apply plain_literal | now apply plain_valueByte |].
    apply get_values in G as [_ ->].
    apply join_Forall; [now repeat constructor | exact W]. }
  rewrite V, get_has, G. reflexivity.
Qed.

Lemma locationResult_other (h : Headers.t) (m : jsstring) :
  Headers.lower m <> js "location" ->
  Headers.values (locationResult upstreamOrigin newOrigin h) m
  = Headers.values h m.
Proof.
  intros H. unfold locationResult.
  destruct (Headers.get h (js "Location")); [|reflexivity].
  now apply values_set_first_other.
Qed.

Lemma locationResult_get (h : Headers.t) :
  Headers.get (locationResult upstreamOrigin newOrigin h) (js "Location")
  = match Headers.get h (js "Location") with
    | None => None
    | Some l =>
        Some (Headers.normalize (JSString.replace l upstreamOrigin newOrigin))
    end.
Proof.
  unfold locationResult.
  destruct (Headers.get h (js "Location")) as [l|] eqn:G; [|exact G].
  unfold Headers.get at 1.
  rewrite values_set_first_same; [reflexivity|].
  now rewrite get_has, G.
Qed.

End LocationFacts.

Lemma Response_new_fetched (r : Response.t) (o n : jsstring) :
  fetched r = true ->
  Response.new (rewriteBody r o n) r
  = Normal (Response.mk (Response.status r) (Response.statusText r)
              (Response.headers r) (bodyOut r o n)).
Proof.
  unfold fetched. intros H.
  apply andb_true_iff in H as [H _]. apply andb_true_iff in H as [H Hb].
  apply andb_true_iff in H as [Hs Hp].
  unfold Response.new, rewriteBody, bodyOut, textual.
  rewrite Hs, Hp. cbn [negb orb].
  destruct (Response.body r) as [bs|]; [|reflexivity].
  rewrite orb_false_r in Hb. apply negb_true_iff in Hb.
  destruct (Headers.get (Response.headers r) (js "Content-Type")) as [ct|] eqn:G.
  - destruct (JSString.startsWith ct (js "text/")); cbn [negb]; rewrite Hb;
      [|reflexivity].
    now rewrite get_has, G.
  - now rewrite Hb.
Qed.

Section RewriterFacts.

Variable parseURL : jsstring -> option URL.t.
Variables upstreamHost newOrigin : jsstring.
Variables upstreamURL newURL : URL.t.
Variables a b c d : jsstring.
Hypothesis parse_upstream : parseURL (js "https://" ++ upstreamHost) = Some upstreamURL.
Hypothesis parse_public : parseURL newOrigin = Some newURL.
Hypothesis enc_a : JSString.encodeURIComponent (URL.host upstreamURL) = Normal a.
Hypothesis enc_b : JSString.encodeURIComponent (URL.host newURL) = Normal b.
Hypothesis enc_c :
  JSString.encodeURIComponent (registrable upstreamURL) = Normal c.
Hypothesis enc_d : JSString.encodeURIComponent (registrable newURL) = Normal d.
Hypothesis origin_plain : forallb plain newOrigin = true.

Lemma newResponseRewriter_eq (r : Response.t) :
  fetched r = true ->
  newResponseRewriter parseURL upstreamHost newOrigin r
  = Normal (Response.mk (Response.status r) (Response.statusText r)
              (locationResult (URL.origin upstreamURL) newOrigin
                 (cookieResult a b c d (Response.headers r)))
              (bodyOut r (URL.origin upstreamURL) newOrigin)).
Proof.
  intros F. unfold newResponseRewriter, constructURL.
  rewrite parse_upstream. cbn [bind].
  rewrite (Response_new_fetched _ _ _ F). cbn [bind Response.headers].
  assert (W : wfHeaders (Response.headers r) = true).
  { unfold fetched in F. now apply andb_true_iff in F as [_ F]. }
  assert (C : (if Headers.has (Response.headers r) (js "Set-Cookie")
               then newURL0 <- match parseURL newOrigin with
                               | Some u => Normal u
                               | None => Throw TypeError
                               end ;;
                    rewriteCookieDomain (Response.headers r) upstreamURL newURL0
               else Normal (Response.headers r))
              = Normal (cookieResult a b c d (Response.headers r))).
  { destruct (Headers.has (Response.headers r) (js "Set-Cookie")) eqn:E.
    - rewrite parse_public. cbn [bind].
      now apply (rewriteCookieDomain_eq upstreamURL newURL a b c d).
    - unfold cookieResult. rewrite get_has in E.
      now destruct (Headers.get (Response.headers r) (js "Set-Cookie")). }
  rewrite C. cbn [bind].
  set (h1 := cookieResult a b c d (Response.headers r)).
  assert (L : (if Headers.has h1 (js "Location")
               then rewriteLocation h1 (URL.origin upstreamURL) newOrigin
               else Normal h1)
              = Normal (locationResult (URL.origin upstreamURL) newOrigin h1)).
  { destruct (Headers.has h1 (js "Location")) eqn:E.
    - apply rewriteLocation_eq; [assumption|].
      unfold h1. rewrite cookieResult_other by (vm_compute; discriminate).
      eapply Forall_impl; [|apply (wfHeaders_values _ _ W)].
      intros v Hv. now apply isValue_valueBytes.
    - unfold locationResult. rewrite get_has in E.
      now destruct (Headers.get h1 (js "Location")). }
  rewrite L. reflexivity.
Qed.

End RewriterFacts.

(** ** Further facts used by the claims *)

Lemma occursb_false (pat s : jsstring) : occursb pat s = false -> ~ occurs pat s.
Proof.
  induction s as [|x s IH]; simpl; intros H [a [b E]].
  - apply orb_false_iff in H as [H _].
    assert (S : JSString.startsWith [] pat = true).
    { symmetry in E. apply app_eq_nil in E as [_ E].
      apply app_eq_nil in E as [-> _]. reflexivity. }
    congruence.
  - apply orb_false_iff in H as [H1 H2].
    destruct a as [|y a].
    + simpl in E. rewrite E, startsWith_app in H1. discriminate.
    + injection E as _ E. apply (IH H2). now exists a, b.
Qed.

Lemma encoded_eq (s e : jsstring) :
  JSString.encodeURIComponent s = Normal e -> encoded s = e.
Proof. unfold encoded. now intros ->. Qed.

Lemma unmatched_tail (pat : jsstring) (c : N) (a rest : jsstring) :
  unmatched pat (c :: a) rest -> unmatched pat a rest.
Proof. intros H x y E Hy. apply (H (c :: x) y); [now rewrite E | exact Hy]. Qed.

Lemma not_occurs_unmatched (pat a s : jsstring) :
  pat <> [] -> ~ occurs pat (a ++ removelast pat) -> unmatched pat a (pat ++ s).
Proof.
  intros Hp Ha x y E Hy.
  destruct (JSString.startsWith (y ++ pat ++ s) pat) eqn:S; [|reflexivity].
  exfalso. apply Ha. apply startsWith_inv in S as [t S].
  destruct (exists_last Hp) as [p' [c Ep]].
  assert (L : removelast pat = p') by (rewrite Ep; apply removelast_last).
  rewrite E, L, <- app_assoc.
  rewrite Ep in S at 1. rewrite <- app_assoc, app_assoc in S.
  apply app_eq_app in S as [l [[E1 E2] | [E1 E2]]].
  - exists x, l. now rewrite E1.
  - exists x, []. rewrite app_nil_r. f_equal.
    assert (Ll : length l = 0%nat).
    { apply (f_equal (@length N)) in E1. rewrite Ep in E1.
      rewrite !length_app in E1. simpl in E1.
      pose proof (length_nonempty y Hy). lia. }
    destruct l; [|discriminate]. now rewrite app_nil_r in E1.
Qed.

Lemma replace_from_eq (pat rep before rest : jsstring) :
  JSString.replace_from pat rep before rest
  = if JSString.startsWith rest pat then
      JSString.GetSubstitution pat before (skipn (length pat) rest) rep
        ++ skipn (length pat) rest
    else
      match rest with
      | [] => []
      | c :: t => c :: JSString.replace_from pat rep (before ++ [c]) t
      end.
Proof. destruct rest; reflexivity. Qed.

(** The leftmost occurrence is the only one [replace] rewrites. *)
Lemma replace_from_first (pat rep s : jsstring) :
  pat <> [] -> ~ In 36 rep ->
  forall a before,
    unmatched pat a (pat ++ s) ->
    JSString.replace_from pat rep before (a ++ pat ++ s) = a ++ rep ++ s.
Proof.
  intros Hp Hr. induction a as [|c a IH]; intros before Hc.
  - simpl app. rewrite replace_from_eq, startsWith_app.
    rewrite GetSubstitution_literal by assumption.
    now rewrite skipn_app, skipn_all, Nat.sub_diag.
  - rewrite replace_from_eq.
    rewrite (Hc [] (c :: a) eq_refl) by discriminate.
    simpl. f_equal. apply IH. eapply unmatched_tail; eauto.
Qed.

Lemma replace_first (pat rep a s : jsstring) :
  pat <> [] -> ~ In 36 rep -> ~ occurs pat (a ++ removelast pat) ->
  JSString.replace (a ++ pat ++ s) pat rep = a ++ rep ++ s.
Proof.
  intros Hp Hr Ha. apply replace_from_first; try assumption.
  now apply not_occurs_unmatched.
Qed.

Lemma values_lower (h : Headers.t) (m n : jsstring) :
  Headers.lower m = Headers.lower n -> Headers.values h m = Headers.values h n.
Proof.
  intros E. unfold Headers.values, Headers.named. now rewrite E.
Qed.

Lemma host_nonempty (u : URL.t) : URL.hostname u <> [] -> URL.host u <> [].
Proof.
  intros H E. unfold URL.host in E. apply app_eq_nil in E as [E _]. contradiction.
Qed.

Lemma not_In_by_search (x : N) (v : jsstring) :
  forallb (fun c => negb (c =? x)) v = true -> ~ In x v.
Proof.
  intros H Hin. rewrite forallb_forall in H. apply H in Hin.
  now rewrite N.eqb_refl in Hin.
Qed.

(** Joining labels that are free of the separator and splitting again
    gives the labels back. *)
Lemma split_join (c : N) (ls : list jsstring) :
  ls <> [] -> Forall (fun l => ~ In c l) ls ->
  JSString.split (JSString.join [c] ls) [c] = ls.
Proof.
  induction ls as [|x ls IH]; intros Hn H; [contradiction|].
  inversion H as [|? ? Hx Hr]; subst.
  destruct ls as [|y ls]; [now apply split_free|].
  rewrite join_cons by discriminate.
  change (x ++ [c] ++ JSString.join [c] (y :: ls))
    with (x ++ c :: JSString.join [c] (y :: ls)).
  rewrite split_at by assumption. f_equal. apply IH; [discriminate | exact Hr].
Qed.

(** The second cookie rewriter does return the last two labels of a
    host that has at least two. *)
Lemma registrable_last_two (u : URL.t) (labels : list jsstring)
  (l1 l2 : jsstring) :
  URL.host u = JSString.join (js ".") (labels ++ [l1; l2]) ->
  Forall (fun l => ~ In 46 l) (labels ++ [l1; l2]) ->
  registrable u = l1 ++ js "." ++ l2.
Proof.
  intros E H. unfold registrable. rewrite E. change (js ".") with [46].
  rewrite split_join; [|now destruct labels | exact H].
  unfold JSString.slice_last. rewrite length_app. cbn [length].
  replace (length labels + 2 - 2)%nat with (length labels + 0)%nat by lia.
  rewrite skipn_app, Nat.add_0_r, skipn_all.
  replace (length labels - length labels)%nat with 0%nat by lia.
  reflexivity.
Qed.

Lemma normalizeMethod_upper (m : jsstring) :
  Request.byteUpperCase m = m -> Request.normalizeMethod m = m.
Proof.
  intros H. unfold Request.normalizeMethod. rewrite H.
  now destruct (Request.oneOf m _).
Qed.

(** The port of the inbound URL stays as well. *)
Lemma outbound_url_port_kept
  (parseHost : bool -> jsstring -> option jsstring)
  (cfg : Config) (req out : Request.t) :
  newRequestRewriter parseHost cfg req = Normal out ->
  URL.port (Request.url out) = URL.port (Request.url req).
Proof.
  unfold newRequestRewriter. intros H.
  apply bind_Normal in H as [p [Hp H]].
  apply bind_Normal in H as [h1 [_ H]].
  apply bind_Normal in H as [h2 [_ H]].
  apply bind_Normal in H as [h3 [_ H]].
  apply bind_Normal in H as [h4 [_ H]].
  injection H as <-. cbn [Request.with_headers Request.url].
  unfold Request.new in Hp.
  destruct (Request.forbiddenMethod (Request.method req)); [discriminate|].
  destruct (set_hostname_frame parseHost (Request.url req)
              (projectHost (ory cfg))) as [_ [P _]].
  destruct (Request.body req).
  - destruct (Request.oneOf _ _); [discriminate|]. now injection Hp as <-.
  - now injection Hp as <-.
Qed.

(** * The claims *)

(** ** Request rewriter and handler *)

(** C3, as the code has it.  For every inbound request the [Request]
    constructor accepts, and a configured upstream host that is a
    canonical host name, the request rewriter returns an outbound
    request whose URL has exactly that host name, while scheme, port,
    path, query and fragment are those of the inbound URL. *)
Theorem outbound_url_host_replaced
  (parseHost : bool -> jsstring -> option jsstring)
  (cfg : Config) (req : Request.t) :
  accepted req = true ->
  isValue (appOrigin cfg) = true ->
  isValue (apiKey (ory cfg)) = true ->
  canonicalHost parseHost (projectHost (ory cfg)) ->
  exists out,
    newRequestRewriter parseHost cfg req = Normal out
    /\ URL.hostname (Request.url out) = projectHost (ory cfg)
    /\ URL.scheme (Request.url out) = URL.scheme (Request.url req)
    /\ URL.port (Request.url out) = URL.port (Request.url req)
    /\ URL.pathname (Request.url out) = URL.pathname (Request.url req)
    /\ URL.query (Request.url out) = URL.query (Request.url req)
    /\ URL.fragment (Request.url out) = URL.fragment (Request.url req).
Proof.
  intros Ha Ho Hk Hc.
  destruct (newRequestRewriter_spec parseHost cfg req Ha Ho Hk)
    as [out [E [U _]]].
  exists out. split; [exact E|].
  rewrite (outbound_url_port_kept _ _ _ _ E). rewrite U.
  destruct (set_hostname_frame parseHost (Request.url req)
              (projectHost (ory cfg))) as [S [_ [P [Q F]]]].
  repeat split; try assumption.
  apply set_hostname_installed, hostname_for_canonical; [|exact Hc].
  unfold accepted in Ha. apply andb_true_iff in Ha as [Ha _].
  now apply andb_true_iff in Ha as [Ha _].
Qed.

Lemma outbound_url_host_replaced_witness :
  accepted localRequest = true
  /\ canonicalHost parseHostExample (projectHost (ory configExample))
  /\ exists out,
       newRequestRewriter parseHostExample configExample localRequest
       = Normal out
       /\ URL.hostname (Request.url out) = projectHost (ory configExample)
       /\ URL.scheme (Request.url out) = URL.scheme (Request.url localRequest)
       /\ URL.port (Request.url out) = URL.port (Request.url localRequest)
       /\ URL.pathname (Request.url out)
          = URL.pathname (Request.url localRequest)
       /\ URL.query (Request.url out) = URL.query (Request.url localRequest)
       /\ URL.fragment (Request.url out)
          = URL.fragment (Request.url localRequest).
Proof.
  assert (C : canonicalHost parseHostExample (projectHost (ory configExample))).
  { repeat split; vm_compute; reflexivity. }
  split; [reflexivity|]. split; [exact C|].
  apply (outbound_url_host_replaced parseHostExample configExample localRequest);
    [reflexivity | reflexivity | reflexivity | exact C].
Defined.

(** C3 as stated fails: the claim is about every inbound request, and
    for a TRACE request [new Request] throws, so that the rewriter
    produces no outbound request at all. *)
Lemma forbidden_method_counterexample :
  URL.isSpecial (URL.scheme (Request.url traceRequest)) = true
  /\ canonicalHost parseHostExample (projectHost (ory configExample))
  /\ newRequestRewriter parseHostExample configExample traceRequest
     = Throw TypeError
  /\ ~ exists out,
         newRequestRewriter parseHostExample configExample traceRequest
         = Normal out
         /\ URL.hostname (Request.url out) = projectHost (ory configExample).
Proof.
  split; [reflexivity|].
  split; [repeat split; vm_compute; reflexivity|].
  split; [vm_compute; reflexivity|].
  intros [out [E _]]. vm_compute in E. discriminate E.
Qed.

(** C8, as the code has it.  For every inbound request the [Request]
    constructor accepts, whatever headers it carries, the outbound
    request has each of the four control headers exactly once, with the
    value the configuration gives it: an inbound header of the same name
    is overwritten. *)
Theorem control_headers_overwritten
  (parseHost : bool -> jsstring -> option jsstring)
  (cfg : Config) (req : Request.t) :
  accepted req = true ->
  isValue (appOrigin cfg) = true ->
  isValue (apiKey (ory cfg)) = true ->
  exists out,
    newRequestRewriter parseHost cfg req = Normal out
    /\ Headers.values (Request.headers out)
         (js "Ory-No-Custom-Domain-Redirect") = [js "true"]
    /\ Headers.values (Request.headers out) (js "Ory-Base-URL-Rewrite")
       = [appOrigin cfg]
    /\ Headers.values (Request.headers out) (js "Ory-Base-URL-Rewrite-Token")
       = [apiKey (ory cfg)]
    /\ Headers.values (Request.headers out) (js "Ory-Network-Ingress")
       = [js "T"]
    /\ Headers.get (Request.headers out) (js "Ory-No-Custom-Domain-Redirect")
       = Some (js "true")
    /\ Headers.get (Request.headers out) (js "Ory-Base-URL-Rewrite")
       = Some (appOrigin cfg)
    /\ Headers.get (Request.headers out) (js "Ory-Base-URL-Rewrite-Token")
       = Some (apiKey (ory cfg))
    /\ Headers.get (Request.headers out) (js "Ory-Network-Ingress")
       = Some (js "T").
Proof.
  intros Ha Ho Hk.
  destruct (newRequestRewriter_spec parseHost cfg req Ha Ho Hk)
    as [out [E [_ [_ [_ [V1 [V2 [V3 [V4 _]]]]]]]]].
  exists out. unfold Headers.get. rewrite V1, V2, V3, V4.
  repeat split; assumption.
Qed.

Lemma control_headers_overwritten_witness :
  accepted loginRequest = true
  /\ isValue (appOrigin configExample) = true
  /\ isValue (apiKey (ory configExample)) = true
  /\ Headers.get (Request.headers loginRequest) (js "Ory-Base-URL-Rewrite")
     = Some (js "https://elsewhere.example")
  /\ exists out,
       newRequestRewriter parseHostExample configExample loginRequest
       = Normal out
       /\ Headers.values (Request.headers out) (js "Ory-Base-URL-Rewrite")
          = [js "https://app.example.org"].
Proof.
  repeat (split; [reflexivity|]).
  destruct (control_headers_overwritten parseHostExample configExample
              loginRequest eq_refl eq_refl eq_refl)
    as [out [E [_ [V _]]]].
  exists out. split; [exact E | exact V].
Defined.

(** C8 as stated fails: the claim is about every inbound request, and
    for a request with a body whose method is written [get] the
    constructor normalises the method to GET and throws, so that there
    is no outbound request to carry the control headers. *)
Lemma body_on_get_counterexample :
  URL.isSpecial (URL.scheme (Request.url getWithBody)) = true
  /\ isValue (appOrigin configExample) = true
  /\ isValue (apiKey (ory configExample)) = true
  /\ newRequestRewriter parseHostExample configExample getWithBody
     = Throw TypeError
  /\ ~ exists out,
         newRequestRewriter parseHostExample configExample getWithBody
         = Normal out
         /\ Headers.get (Request.headers out) (js "Ory-Network-Ingress")
            = Some (js "T").
Proof.
  split; [reflexivity|]. split; [reflexivity|]. split; [reflexivity|].
  split; [vm_compute; reflexivity|].
  intros [out [E _]]. vm_compute in E. discriminate E.
Qed.

(** C9, as the code has it.  For every proxied inbound request the
    handler hands exactly one request to the upstream invoker; its URL
    has the upstream host name and keeps the scheme and the port of the
    inbound URL, so it is an HTTPS request exactly when the inbound one
    is; method, path, query and body are those of the inbound request. *)
Theorem outbound_keeps_inbound_scheme
  (parseURL : jsstring -> option URL.t)
  (parseHost : bool -> jsstring -> option jsstring)
  (fetch : Request.t -> completion Response.t)
  (cfg : Config) (req : Request.t) :
  URL.pathname (Request.url req) <> js "/" ->
  accepted req = true ->
  Request.byteUpperCase (Request.method req) = Request.method req ->
  isValue (appOrigin cfg) = true ->
  isValue (apiKey (ory cfg)) = true ->
  canonicalHost parseHost (projectHost (ory cfg)) ->
  exists out,
    fst (newHandler parseURL parseHost fetch cfg req) = [out]
    /\ URL.hostname (Request.url out) = projectHost (ory cfg)
    /\ URL.scheme (Request.url out) = URL.scheme (Request.url req)
    /\ URL.port (Request.url out) = URL.port (Request.url req)
    /\ Request.method out = Request.method req
    /\ URL.pathname (Request.url out) = URL.pathname (Request.url req)
    /\ URL.query (Request.url out) = URL.query (Request.url req)
    /\ Request.body out = Request.body req.
Proof.
  intros Hp Ha Hm Ho Hk Hc.
  destruct (newRequestRewriter_spec parseHost cfg req Ha Ho Hk)
    as [out [E [U [M [B _]]]]].
  exists out. unfold newHandler.
  apply jseqb_neq in Hp. rewrite Hp, E. cbn [fst].
  split; [reflexivity|].
  rewrite M, (normalizeMethod_upper _ Hm), B.
  rewrite (outbound_url_port_kept _ _ _ _ E). rewrite U.
  destruct (set_hostname_frame parseHost (Request.url req)
              (projectHost (ory cfg))) as [S [_ [P [Q _]]]].
  repeat split; try assumption.
  apply set_hostname_installed, hostname_for_canonical; [|exact Hc].
  unfold accepted in Ha. apply andb_true_iff in Ha as [Ha _].
  now apply andb_true_iff in Ha as [Ha _].
Qed.

Lemma outbound_keeps_inbound_scheme_witness :
  URL.pathname (Request.url localRequest) <> js "/"
  /\ accepted localRequest = true
  /\ exists out,
       fst (newHandler parseExample parseHostExample fetchExample
              configExample localRequest) = [out]
       /\ URL.hostname (Request.url out) = projectHost (ory configExample)
       /\ URL.scheme (Request.url out) = URL.scheme (Request.url localRequest)
       /\ URL.port (Request.url out) = URL.port (Request.url localRequest)
       /\ Request.method out = Request.method localRequest
       /\ URL.pathname (Request.url out)
          = URL.pathname (Request.url localRequest)
       /\ URL.query (Request.url out) = URL.query (Request.url localRequest)
       /\ Request.body out = Request.body localRequest.
Proof.
  assert (P : URL.pathname (Request.url localRequest) <> js "/").
  { vm_compute. discriminate. }
  split; [exact P|]. split; [reflexivity|].
  apply (outbound_keeps_inbound_scheme parseExample parseHostExample
           fetchExample configExample localRequest);
    [exact P | reflexivity | reflexivity | reflexivity | reflexivity |].
  repeat split; vm_compute; reflexivity.
Defined.

(** C9 as stated fails: a request that reached the listener over plain
    HTTP is accepted and proxied, and the outbound request is an [http]
    one, on the port of the listener. *)
Lemma outbound_https_counterexample :
  accepted localRequest = true
  /\ exists out,
       fst (newHandler parseExample parseHostExample fetchExample
              configExample localRequest) = [out]
       /\ URL.href (Request.url out)
          = js "http://upstream.example.com:8080/self-service/login?flow=1"
       /\ URL.scheme (Request.url out) <> js "https".
Proof.
  split; [reflexivity|].
  eexists. split; [vm_compute; reflexivity|].
  split; [vm_compute; reflexivity | vm_compute; discriminate].
Qed.

(** C2, as the code has it.  A request for the root path is answered
    with status 303 and no body, without any call upstream; the Location
    is the URL of the request itself with [/ui] as its path, so it keeps
    the scheme, host, port, query and fragment of that URL. *)
Theorem root_redirects_to_ui
  (parseURL : jsstring -> option URL.t)
  (parseHost : bool -> jsstring -> option jsstring)
  (fetch : Request.t -> completion Response.t)
  (cfg : Config) (req : Request.t) :
  URL.pathname (Request.url req) = js "/" ->
  exists res,
    newHandler parseURL parseHost fetch cfg req = ([], Normal res)
    /\ Response.status res = 303
    /\ Response.body res = None
    /\ Headers.get (Response.headers res) (js "Location")
       = Some (uiLocation (Request.url req)).
Proof.
  intros H. unfold newHandler. apply jseqb_eq in H. rewrite H.
  eexists. split; [reflexivity|]. repeat split.
Qed.

Lemma root_redirects_to_ui_witness :
  URL.pathname (Request.url rootRequest) = js "/"
  /\ exists res,
       newHandler parseExample parseHostExample fetchExample configExample
         rootRequest = ([], Normal res)
       /\ Response.status res = 303
       /\ Response.body res = None
       /\ Headers.get (Response.headers res) (js "Location")
          = Some (uiLocation (Request.url rootRequest)).
Proof.
  split; [reflexivity|].
  apply (root_redirects_to_ui parseExample parseHostExample fetchExample
           configExample rootRequest).
  reflexivity.
Defined.

(** C2 as stated fails.  The request [https://app.example.org/?flow=abc]
    arrives under the configured public origin, and the Location of the
    redirect is not [<publicOrigin>/ui]: the query string is carried
    along.  The request [http://localhost:8080/] is redirected to
    [/ui] on the listener it was sent to, not on the public origin. *)
Lemma root_location_counterexample :
  (URL.pathname (Request.url rootRequest) = js "/"
   /\ URL.origin (Request.url rootRequest) = appOrigin configExample
   /\ exists res,
        newHandler parseExample parseHostExample fetchExample configExample
          rootRequest = ([], Normal res)
        /\ Headers.get (Response.headers res) (js "Location")
           = Some (js "https://app.example.org/ui?flow=abc")
        /\ Headers.get (Response.headers res) (js "Location")
           <> Some (appOrigin configExample ++ js "/ui"))
  /\ (URL.pathname (Request.url localRootRequest) = js "/"
      /\ exists res,
           newHandler parseExample parseHostExample fetchExample
             configExample localRootRequest = ([], Normal res)
           /\ Headers.get (Response.headers res) (js "Location")
              = Some (js "http://localhost:8080/ui")
           /\ Headers.get (Response.headers res) (js "Location")
              <> Some (appOrigin configExample ++ js "/ui")).
Proof.
  split.
  - split; [reflexivity|]. split; [reflexivity|].
    eexists. split; [vm_compute; reflexivity|].
    split; [vm_compute; reflexivity | vm_compute; discriminate].
  - split; [reflexivity|].
    eexists. split; [vm_compute; reflexivity|].
    split; [vm_compute; reflexivity | vm_compute; discriminate].
Qed.

(** ** Response rewriter *)

Section ResponseClaims.

Variable parseURL : jsstring -> option URL.t.
Variables upstreamHost newOrigin : jsstring.
Variables upstreamURL publicURL : URL.t.
Hypothesis parse_upstream :
  parseURL (js "https://" ++ upstreamHost) = Some upstreamURL.
Hypothesis parse_public : parseURL newOrigin = Some publicURL.
Hypothesis ascii_upstream : asciiHost upstreamURL = true.
Hypothesis ascii_public : asciiHost publicURL = true.
Hypothesis origin_plain : forallb plain newOrigin = true.

Lemma encoded_host (u : URL.t) :
  asciiHost u = true ->
  JSString.encodeURIComponent (URL.host u) = Normal (encoded (URL.host u)).
Proof.
  intros H. destruct (encode_host u H) as [e E].
  now rewrite (encoded_eq _ _ E).
Qed.

Lemma encoded_registrable (u : URL.t) :
  asciiHost u = true ->
  JSString.encodeURIComponent (registrable u)
  = Normal (encoded (registrable u)).
Proof.
  intros H. destruct (encode_registrable u H) as [e E].
  now rewrite (encoded_eq _ _ E).
Qed.

Lemma newResponseRewriter_result (r : Response.t) :
  fetched r = true ->
  newResponseRewriter parseURL upstreamHost newOrigin r
  = Normal (Response.mk (Response.status r) (Response.statusText r)
              (headersOut newOrigin upstreamURL publicURL (Response.headers r))
              (bodyOut r (URL.origin upstreamURL) newOrigin)).
Proof.
  intros F.
  apply (newResponseRewriter_eq parseURL upstreamHost newOrigin
           upstreamURL publicURL); try assumption;
    auto using encoded_host, encoded_registrable.
Qed.

(** C4.  A response with a body and a text Content-Type gets the body
    decoded, every occurrence of the upstream origin replaced by the
    public origin, and the text encoded again; with any other
    Content-Type, application/octet-stream among them, or with none, the
    bytes of the body are returned unchanged. *)
Theorem body_rewrite_scope (r : Response.t) (bs : bytes) :
  fetched r = true ->
  Response.body r = Some bs ->
  exists out,
    newResponseRewriter parseURL upstreamHost newOrigin r = Normal out
    /\ (textual r = true ->
        exists text,
          Substituted (URL.origin upstreamURL) newOrigin (Utf8.decode bs) text
          /\ Response.body out = Some (Utf8.encode text))
    /\ (textual r = false -> Response.body out = Some bs)
    /\ (Headers.get (Response.headers r) (js "Content-Type")
        = Some (js "application/octet-stream") ->
        Response.body out = Some bs)
    /\ (Headers.get (Response.headers r) (js "Content-Type") = None ->
        Response.body out = Some bs).
Proof.
  intros F B. eexists. split; [apply (newResponseRewriter_result r F)|].
  cbn [Response.body]. unfold bodyOut. rewrite B.
  repeat split.
  - intros T. rewrite T. eexists. split; [|reflexivity].
    apply replaceAll_Substituted;
      [apply origin_nonempty | now apply plain_literal].
  - now intros ->.
  - intros G. unfold textual. now rewrite G.
  - intros G. unfold textual. now rewrite G.
Qed.

(** C10.  The body is rewritten as text exactly when the Content-Type
    value has the literal prefix [text/]; a JSON or JavaScript response
    keeps the bytes of its body, whatever they contain. *)
Theorem textual_is_text_prefix (r : Response.t) (bs : bytes) :
  fetched r = true ->
  Response.body r = Some bs ->
  exists out,
    newResponseRewriter parseURL upstreamHost newOrigin r = Normal out
    /\ (forall contentType,
          Headers.get (Response.headers r) (js "Content-Type")
          = Some contentType ->
          ((exists rest, contentType = js "text/" ++ rest) ->
           Response.body out
           = Some (Utf8.encode
                     (JSString.replaceAll (Utf8.decode bs)
                        (URL.origin upstreamURL) newOrigin)))
          /\ (~ (exists rest, contentType = js "text/" ++ rest) ->
              Response.body out = Some bs))
    /\ (forall rest,
          Headers.get (Response.headers r) (js "Content-Type")
          = Some (js "application/json" ++ rest)
          \/ Headers.get (Response.headers r) (js "Content-Type")
             = Some (js "application/javascript" ++ rest) ->
          Response.body out = Some bs).
Proof.
  intros F B. eexists. split; [apply (newResponseRewriter_result r F)|].
  cbn [Response.body]. unfold bodyOut, textual. rewrite B.
  split.
  - intros ct G. rewrite G. split; intros H.
    + apply startsWith_iff in H. now rewrite H.
    + destruct (JSString.startsWith ct (js "text/")) eqn:S; [|reflexivity].
      exfalso. apply H. now apply startsWith_iff.
  - intros rest [G | G]; rewrite G; reflexivity.
Qed.

Let a := encoded (URL.host upstreamURL).
Let b := encoded (URL.host publicURL).
Let c := encoded (registrable upstreamURL).
Let d := encoded (registrable publicURL).

Lemma headersOut_cookies (h : Headers.t) :
  Headers.values (headersOut newOrigin upstreamURL publicURL h)
    (js "Set-Cookie")
  = match Headers.get h (js "Set-Cookie") with
    | None => []
    | Some s =>
        map (fun ck => Headers.normalize (passes a b c d ck))
          (JSString.split s (js ","))
    end.
Proof.
  unfold headersOut.
  rewrite locationResult_other by (vm_compute; discriminate).
  apply cookieResult_values.
Qed.

(** X20.  Every piece of the split Set-Cookie value is rewritten on its
    own and the results are appended in the order of the pieces. *)
Lemma set_cookie_pieces_rewritten (r : Response.t) (s : jsstring) :
  fetched r = true ->
  Headers.get (Response.headers r) (js "Set-Cookie") = Some s ->
  exists out,
    newResponseRewriter parseURL upstreamHost newOrigin r = Normal out
    /\ Forall2
         (fun piece v =>
            exists w,
              rewriteCookie upstreamURL publicURL piece = Normal w
              /\ v = Headers.normalize w)
         (JSString.split s (js ","))
         (Headers.values (Response.headers out) (js "Set-Cookie")).
Proof.
  intros F G. eexists. split; [now apply newResponseRewriter_result|].
  cbn [Response.headers]. rewrite headersOut_cookies, G.
  induction (JSString.split s (js ",")) as [|piece pieces IH];
    [constructor|].
  cbn [map]. constructor; [|exact IH].
  exists (passes a b c d piece). split; [|reflexivity].
  apply rewriteCookie_passes; auto using encoded_host, encoded_registrable.
Qed.

(** C7, as the code has it.  When the one Set-Cookie value of the
    response is two cookies joined by a comma, neither with a comma of
    its own, the rewritten response has two Set-Cookie headers and no
    other, the first cookie rewritten and then the second, each as
    [Headers.append] stores it; rewritten means trimmed at the start,
    then every occurrence of the URL-encoded upstream host replaced by
    the URL-encoded public host, then every occurrence of the
    URL-encoded last two labels of the upstream host replaced by those
    of the public host. *)
Theorem two_cookies_two_headers (r : Response.t) (first second : jsstring) :
  fetched r = true ->
  URL.hostname upstreamURL <> [] ->
  Headers.values (Response.headers r) (js "Set-Cookie")
  = [first ++ js "," ++ second] ->
  ~ In 44 first ->
  ~ In 44 second ->
  exists out eh ph er pr m1 v1 m2 v2,
    newResponseRewriter parseURL upstreamHost newOrigin r = Normal out
    /\ JSString.encodeURIComponent (URL.host upstreamURL) = Normal eh
    /\ JSString.encodeURIComponent (URL.host publicURL) = Normal ph
    /\ JSString.encodeURIComponent (registrable upstreamURL) = Normal er
    /\ JSString.encodeURIComponent (registrable publicURL) = Normal pr
    /\ Substituted eh ph (JSString.trimStart first) m1
    /\ Substituted er pr m1 v1
    /\ Substituted eh ph (JSString.trimStart second) m2
    /\ Substituted er pr m2 v2
    /\ Headers.values (Response.headers out) (js "Set-Cookie")
       = [Headers.normalize v1; Headers.normalize v2].
Proof.
  intros F Hn V H1 H2.
  exists (Response.mk (Response.status r) (Response.statusText r)
            (headersOut newOrigin upstreamURL publicURL (Response.headers r))
            (bodyOut r (URL.origin upstreamURL) newOrigin)),
    a, b, c, d,
    (JSString.replaceAll (JSString.trimStart first) a b),
    (passes a b c d first),
    (JSString.replaceAll (JSString.trimStart second) a b),
    (passes a b c d second).
  split.
  { apply newResponseRewriter_result; assumption. }
  pose proof (encoded_host upstreamURL ascii_upstream) as Ea.
  pose proof (encoded_host publicURL ascii_public) as Eb.
  pose proof (encoded_registrable upstreamURL ascii_upstream) as Ec.
  pose proof (encoded_registrable publicURL ascii_public) as Ed.
  repeat (split; [assumption|]).
  assert (S1 : forall s, Substituted a b s (JSString.replaceAll s a b)).
  { intros s. apply replaceAll_Substituted.
    - apply (encodeURIComponent_nonempty _ _ Ea). now apply host_nonempty.
    - apply plain_literal. apply (encodeURIComponent_plain _ _ Eb). }
  assert (S2 : forall s, Substituted c d s (JSString.replaceAll s c d)).
  { intros s. apply replaceAll_Substituted.
    - apply (encodeURIComponent_nonempty _ _ Ec).
      apply last_two_labels_nonempty. now apply host_nonempty.
    - apply plain_literal. apply (encodeURIComponent_plain _ _ Ed). }
  split; [apply S1|]. split; [apply S2|].
  split; [apply S1|]. split; [apply S2|].
  cbn [Response.headers]. rewrite headersOut_cookies.
  unfold Headers.get. rewrite V. cbn [JSString.join].
  change (js ",") with [44].
  change (first ++ [44] ++ second) with (first ++ 44 :: second).
  rewrite split_at by assumption.
  rewrite split_free by assumption. reflexivity.
Qed.


(** X15.  The general form of the Location step: only the leftmost
    occurrence of the upstream origin is rewritten. *)
Lemma location_first_occurrence_only (r : Response.t) (before after : jsstring) :
  fetched r = true ->
  Headers.get (Response.headers r) (js "Location")
  = Some (before ++ URL.origin upstreamURL ++ after) ->
  ~ occurs (URL.origin upstreamURL)
      (before ++ removelast (URL.origin upstreamURL)) ->
  exists out,
    newResponseRewriter parseURL upstreamHost newOrigin r = Normal out
    /\ Headers.get (Response.headers out) (js "Location")
       = Some (Headers.normalize (before ++ newOrigin ++ after)).
Proof.
  intros F G O. eexists. split.
  { apply newResponseRewriter_result; assumption. }
  cbn [Response.headers]. unfold headersOut. rewrite locationResult_get.
  rewrite (get_by_values (Response.headers r)
             (cookieResult _ _ _ _ (Response.headers r)) (js "Location"))
    by (apply cookieResult_other; vm_compute; discriminate).
  rewrite G. f_equal. f_equal.
  apply replace_first;
    [apply origin_nonempty | now apply plain_literal | exact O].
Qed.

End ResponseClaims.

(** ** The running example, end to end *)

(** C1, the failing input.  The Location of [redirectTwice] holds the
    upstream origin twice, once in its [return_to] parameter; the
    rewriter changes the first occurrence and returns the second as it
    came. *)
Theorem location_second_occurrence_kept :
  exists out,
    newResponseRewriter parseExample (js "upstream.example.com")
      (js "https://app.example.org") redirectTwice = Normal out
    /\ Headers.get (Response.headers out) (js "Location")
       = Some (js "https://app.example.org/self-service/login?return_to=https://upstream.example.com/ui/welcome")
    /\ occursb (js "https://upstream.example.com")
         (js "https://app.example.org/self-service/login?return_to=https://upstream.example.com/ui/welcome")
       = true.
Proof.
  eexists. split; [vm_compute; reflexivity|].
  split; vm_compute; reflexivity.
Qed.

(** The redirect of the specification, with the origin once, is
    rewritten as the specification says. *)
Lemma location_example :
  exists out,
    newResponseRewriter parseExample (js "upstream.example.com")
      (js "https://app.example.org") redirectOnce = Normal out
    /\ Response.status out = 302
    /\ Headers.get (Response.headers out) (js "Location")
       = Some (js "https://app.example.org/callback?x=1").
Proof.
  eexists. split; [vm_compute; reflexivity|].
  split; vm_compute; reflexivity.
Qed.

(** C5.  Each cookie string goes through two global substitutions, in
    this order: the URL-encoded upstream host is replaced by the
    URL-encoded public host, then the URL-encoded last two labels of the
    upstream host by the same component of the public host, URL-encoded.
    In the example of the specification the Domain attribute comes out
    as [app.example.org]. *)
Theorem cookie_passes_broadest_first :
  (forall upstreamURL publicURL : URL.t,
     asciiHost upstreamURL = true ->
     asciiHost publicURL = true ->
     URL.hostname upstreamURL <> [] ->
     exists a b c d,
       JSString.encodeURIComponent (URL.host upstreamURL) = Normal a
       /\ JSString.encodeURIComponent (URL.host publicURL) = Normal b
       /\ JSString.encodeURIComponent (registrable upstreamURL) = Normal c
       /\ JSString.encodeURIComponent (registrable publicURL) = Normal d
       /\ forall cookie,
            exists first second,
              Substituted a b (JSString.trimStart cookie) first
              /\ Substituted c d first second
              /\ rewriteCookie upstreamURL publicURL cookie = Normal second)
  /\ (exists out,
        newResponseRewriter parseExample (js "upstream.example.com")
          (js "https://app.example.org") cookieResponse = Normal out
        /\ Headers.values (Response.headers out) (js "Set-Cookie")
           = [js "session=abc; Domain=app.example.org"]).
Proof.
  split.
  - intros up pub Hu Hp Hn.
    destruct (encode_host up Hu) as [a Ea].
    destruct (encode_host pub Hp) as [b Eb].
    destruct (encode_registrable up Hu) as [c Ec].
    destruct (encode_registrable pub Hp) as [d Ed].
    exists a, b, c, d. repeat (split; [assumption|]).
    intros cookie.
    exists (JSString.replaceAll (JSString.trimStart cookie) a b),
      (passes a b c d cookie).
    split; [|split].
    + apply replaceAll_Substituted.
      * apply (encodeURIComponent_nonempty _ _ Ea). now apply host_nonempty.
      * apply plain_literal. apply (encodeURIComponent_plain _ _ Eb).
    + apply replaceAll_Substituted.
      * apply (encodeURIComponent_nonempty _ _ Ec).
        apply last_two_labels_nonempty. now apply host_nonempty.
      * apply plain_literal. apply (encodeURIComponent_plain _ _ Ed).
    + now apply rewriteCookie_passes.
  - eexists. split; vm_compute; reflexivity.
Qed.

Lemma cookie_passes_broadest_first_witness :
  asciiHost upstreamExample = true
  /\ asciiHost publicExample = true
  /\ URL.hostname upstreamExample <> []
  /\ exists a b c d,
       JSString.encodeURIComponent (URL.host upstreamExample) = Normal a
       /\ JSString.encodeURIComponent (URL.host publicExample) = Normal b
       /\ JSString.encodeURIComponent (registrable upstreamExample) = Normal c
       /\ JSString.encodeURIComponent (registrable publicExample) = Normal d
       /\ forall cookie,
            exists first second,
              Substituted a b (JSString.trimStart cookie) first
              /\ Substituted c d first second
              /\ rewriteCookie upstreamExample publicExample cookie
                 = Normal second.
Proof.
  assert (N : URL.hostname upstreamExample <> []) by (vm_compute; discriminate).
  split; [reflexivity|]. split; [reflexivity|]. split; [exact N|].
  apply (proj1 cookie_passes_broadest_first upstreamExample publicExample);
    [reflexivity | reflexivity | exact N].
Defined.



Lemma two_cookies_two_headers_witness :
  fetched twoCookies = true
  /\ URL.hostname upstreamExample <> []
  /\ Headers.values (Response.headers twoCookies) (js "Set-Cookie")
     = [js "session=abc; Domain=upstream.example.com" ++ js ","
        ++ js " csrf=xyz; Domain=example.com"]
  /\ exists out eh ph er pr m1 v1 m2 v2,
       newResponseRewriter parseExample (js "upstream.example.com")
         (js "https://app.example.org") twoCookies = Normal out
       /\ JSString.encodeURIComponent (URL.host upstreamExample) = Normal eh
       /\ JSString.encodeURIComponent (URL.host publicExample) = Normal ph
       /\ JSString.encodeURIComponent (registrable upstreamExample)
          = Normal er
       /\ JSString.encodeURIComponent (registrable publicExample) = Normal pr
       /\ Substituted eh ph
            (JSString.trimStart (js "session=abc; Domain=upstream.example.com"))
            m1
       /\ Substituted er pr m1 v1
       /\ Substituted eh ph
            (JSString.trimStart (js " csrf=xyz; Domain=example.com")) m2
       /\ Substituted er pr m2 v2
       /\ Headers.values (Response.headers out) (js "Set-Cookie")
          = [Headers.normalize v1; Headers.normalize v2].
Proof.
  assert (N : URL.hostname upstreamExample <> []) by (vm_compute; discriminate).
  split; [reflexivity|]. split; [exact N|]. split; [reflexivity|].
  apply (two_cookies_two_headers parseExample (js "upstream.example.com")
           (js "https://app.example.org") upstreamExample publicExample);
    try reflexivity; try exact N;
    apply not_In_by_search; vm_compute; reflexivity.
Defined.

(** C7 as stated fails: the Set-Cookie value of [twoCookiesExpires] is
    two cookies joined by a comma, the first with an Expires date, and
    the rewritten response has three Set-Cookie headers, the first
    cookie cut in two at the comma of its date. *)
Lemma two_cookies_expires_counterexample :
  fetched twoCookiesExpires = true
  /\ Headers.values (Response.headers twoCookiesExpires) (js "Set-Cookie")
     = [js "session=abc; Expires=Wed, 21 Oct 2026 07:28:00 GMT" ++ js ","
        ++ js " csrf=xyz; Path=/"]
  /\ exists out,
       newResponseRewriter parseExample (js "upstream.example.com")
         (js "https://app.example.org") twoCookiesExpires = Normal out
       /\ Headers.values (Response.headers out) (js "Set-Cookie")
          = [js "session=abc; Expires=Wed";
             js "21 Oct 2026 07:28:00 GMT";
             js "csrf=xyz; Path=/"]
       /\ length (Headers.values (Response.headers out) (js "Set-Cookie"))
          <> 2%nat.
Proof.
  split; [reflexivity|]. split; [reflexivity|].
  eexists. split; [vm_compute; reflexivity|].
  split; [vm_compute; reflexivity | vm_compute; discriminate].
Qed.

(** The two headers of that example, spelled out. *)
Lemma two_cookies_example :
  exists out,
    newResponseRewriter parseExample (js "upstream.example.com")
      (js "https://app.example.org") twoCookies = Normal out
    /\ Headers.values (Response.headers out) (js "Set-Cookie")
       = [js "session=abc; Domain=app.example.org";
          js "csrf=xyz; Domain=example.org"].
Proof. eexists. split; vm_compute; reflexivity. Qed.

Lemma body_rewrite_scope_witness :
  fetched htmlResponse = true
  /\ Response.body htmlResponse = Some pageBody
  /\ exists out,
       newResponseRewriter parseExample (js "upstream.example.com")
         (js "https://app.example.org") htmlResponse = Normal out
       /\ (textual htmlResponse = true ->
           exists text,
             Substituted (URL.origin upstreamExample)
               (js "https://app.example.org") (Utf8.decode pageBody) text
             /\ Response.body out = Some (Utf8.encode text))
       /\ (textual htmlResponse = false -> Response.body out = Some pageBody)
       /\ (Headers.get (Response.headers htmlResponse) (js "Content-Type")
           = Some (js "application/octet-stream") ->
           Response.body out = Some pageBody)
       /\ (Headers.get (Response.headers htmlResponse) (js "Content-Type")
           = None ->
           Response.body out = Some pageBody).
Proof.
  split; [reflexivity|]. split; [reflexivity|].
  apply (body_rewrite_scope parseExample (js "upstream.example.com")
           (js "https://app.example.org") upstreamExample publicExample);
    reflexivity.
Defined.

(** The two bodies of the specification's example: the HTML page has
    both occurrences replaced, the octet stream is returned as it is. *)
Lemma body_examples :
  (exists out,
     newResponseRewriter parseExample (js "upstream.example.com")
       (js "https://app.example.org") htmlResponse = Normal out
     /\ Response.body out
        = Some (ascii_bytes
                  "<a href='https://app.example.org/a'>https://app.example.org</a>"))
  /\ (exists out,
        newResponseRewriter parseExample (js "upstream.example.com")
          (js "https://app.example.org") octetResponse = Normal out
        /\ Response.body out = Some pageBody).
Proof. split; eexists; split; vm_compute; reflexivity. Qed.

Lemma textual_is_text_prefix_witness :
  fetched jsonResponse = true
  /\ Response.body jsonResponse = Some jsonBody
  /\ Headers.get (Response.headers jsonResponse) (js "Content-Type")
     = Some (js "application/json" ++ [])
  /\ occursb (js "https://upstream.example.com") (Utf8.decode jsonBody) = true
  /\ exists out,
       newResponseRewriter parseExample (js "upstream.example.com")
         (js "https://app.example.org") jsonResponse = Normal out
       /\ Response.body out = Some jsonBody.
Proof.
  repeat (split; [reflexivity|]).
  destruct (textual_is_text_prefix parseExample (js "upstream.example.com")
              (js "https://app.example.org") upstreamExample publicExample
              eq_refl eq_refl eq_refl eq_refl eq_refl jsonResponse jsonBody
              eq_refl eq_refl) as [out [E [_ J]]].
  exists out. split; [exact E|]. apply (J []). left. reflexivity.
Defined.

(** A text body that is not UTF-8 does not survive the round trip
    through [text()]: the byte E9 of a Latin-1 page comes back as the
    three bytes of U+FFFD, with the upstream origin nowhere in sight. *)
Lemma latin1_body_example :
  let r := Response.mk 200 (js "OK")
             [(js "content-type", js "text/plain; charset=iso-8859-1")]
             (Some [Byte.x63; Byte.x61; Byte.x66; Byte.xe9]) in
  fetched r = true
  /\ exists out,
       newResponseRewriter parseExample (js "upstream.example.com")
         (js "https://app.example.org") r = Normal out
       /\ Response.body out
          = Some [Byte.x63; Byte.x61; Byte.x66; Byte.xef; Byte.xbf; Byte.xbd].
Proof.
  split; [reflexivity|]. eexists. split; vm_compute; reflexivity.
Qed.

(** * Further properties of the code *)

(** ** [newConfig] *)

Section ParseInt.

Variable tail : jsstring.
Hypothesis tail_ends : endsNumber tail = true.

Lemma digitsPrefix_tail (acc : N) :
  JSNumber.digitsPrefix 10 tail acc true = Some acc.
Proof.
  destruct tail as [|c t]; [reflexivity|].
  simpl in tail_ends. simpl.
  assert (D : JSNumber.digitValue 10 c = None).
  { unfold JSNumber.digitValue.
    apply andb_true_iff in tail_ends as [H _].
    apply andb_true_iff in H as [H _]. apply negb_true_iff in H. rewrite H.
    destruct ((97 <=? c) && (c <=? 122)) eqn:L.
    - apply andb_true_iff in L as [L1 L2]. apply N.leb_le in L1.
      destruct (N.ltb_spec (c - 87) 10); [lia | reflexivity].
    - destruct ((65 <=? c) && (c <=? 90)) eqn:U; [|reflexivity].
      apply andb_true_iff in U as [U1 U2]. apply N.leb_le in U1.
      destruct (N.ltb_spec (c - 55) 10); [lia | reflexivity]. }
  now rewrite D.
Qed.

Lemma digitsPrefix_acc (u : Decimal.uint) :
  forall p : positive,
    JSNumber.digitsPrefix 10 (URL.digits u ++ tail) (N.pos p) true
    = Some (N.pos (Pos.of_uint_acc u p)).
Proof.
  induction u; intros p; cbn [URL.digits app Pos.of_uint_acc];
    [apply digitsPrefix_tail | ..];
    cbn [JSNumber.digitsPrefix];
    match goal with
    | |- context [JSNumber.digitValue 10 ?c] =>
        change (JSNumber.digitValue 10 c) with (Some (c - 48))
    end;
    cbv iota; rewrite <- IHu; f_equal; lia.
Qed.

Lemma digitsPrefix_uint (u : Decimal.uint) :
  JSNumber.digitsPrefix 10 (URL.digits u ++ tail) 0 true
  = Some (Pos.of_uint u).
Proof.
  induction u; cbn [URL.digits app Pos.of_uint];
    [apply digitsPrefix_tail | ..];
    cbn [JSNumber.digitsPrefix];
    match goal with
    | |- context [JSNumber.digitValue 10 ?c] =>
        change (JSNumber.digitValue 10 c) with (Some (c - 48))
    end;
    cbv iota; [exact IHu | ..]; apply digitsPrefix_acc.
Qed.

Lemma digitsPrefix_unseen (u : Decimal.uint) :
  u <> Decimal.Nil ->
  JSNumber.digitsPrefix 10 (URL.digits u ++ tail) 0 false
  = JSNumber.digitsPrefix 10 (URL.digits u ++ tail) 0 true.
Proof. destruct u; [contradiction | ..]; reflexivity. Qed.

Lemma to_uint_not_Nil (n : N) : N.to_uint n <> Decimal.Nil.
Proof.
  intros E. pose proof (DecimalN.Unsigned.of_to n) as H.
  rewrite E in H. simpl in H. subst n. discriminate E.
Qed.

(** The digits of a number start with a digit, and what follows the
    first does not start with [x] or [X]. *)
Lemma digits_shape (u : Decimal.uint) :
  u <> Decimal.Nil ->
  exists c rest,
    URL.digits u = c :: rest
    /\ 48 <= c <= 57
    /\ forall x t, rest ++ tail = x :: t -> (x =? 120) || (x =? 88) = false.
Proof.
  assert (R : forall v x t,
             URL.digits v ++ tail = x :: t -> (x =? 120) || (x =? 88) = false).
  { intros v x t E. destruct v; cbn [URL.digits app] in E;
      try (injection E as <- _; reflexivity).
    rewrite E in tail_ends. simpl in tail_ends.
    apply andb_true_iff in tail_ends as [T T2].
    apply andb_true_iff in T as [_ T1].
    apply negb_true_iff in T1. apply negb_true_iff in T2.
    now rewrite T1, T2. }
  destruct u; [contradiction | ..]; intros _;
    eexists; eexists; (split; [reflexivity|]); (split; [lia | apply R]).
Qed.

Lemma parseInt_decimal (n : N) :
  n <= 2 ^ 53 ->
  JSNumber.parseInt (URL.decimal n ++ tail) = Int (Z.of_N n).
Proof.
  intros B. unfold JSNumber.parseInt, URL.decimal.
  destruct (digits_shape (N.to_uint n) (to_uint_not_Nil n))
    as [c [rest [E [R T]]]].
  assert (W : JSString.trimStart (URL.digits (N.to_uint n) ++ tail)
              = URL.digits (N.to_uint n) ++ tail).
  { rewrite E. unfold JSString.trimStart. cbn [app JSString.dropWhile].
    assert (F : JSString.isWhiteSpace c = false).
    { unfold JSString.isWhiteSpace.
      repeat match goal with
             | |- context [?a <=? ?b] => destruct (N.leb_spec a b); try lia
             | |- context [?a =? ?b] => destruct (N.eqb_spec a b); try lia
             end; reflexivity. }
    now rewrite F. }
  rewrite W.
  assert (S : JSNumber.signOf (URL.digits (N.to_uint n) ++ tail)
              = (false, URL.digits (N.to_uint n) ++ tail)).
  { rewrite E. cbn [app JSNumber.signOf].
    destruct (N.eqb_spec c 45); [lia|]. destruct (N.eqb_spec c 43); [lia|].
    reflexivity. }
  rewrite S.
  assert (X : JSNumber.radixOf (URL.digits (N.to_uint n) ++ tail)
              = (10, URL.digits (N.to_uint n) ++ tail)).
  { rewrite E. cbn [app]. destruct (rest ++ tail) as [|x t] eqn:Q;
      [reflexivity|].
    cbn [JSNumber.radixOf]. rewrite (T x t eq_refl).
    now rewrite andb_false_r. }
  rewrite X.
  rewrite digitsPrefix_unseen by apply to_uint_not_Nil.
  rewrite digitsPrefix_uint.
  change (Pos.of_uint (N.to_uint n)) with (N.of_uint (N.to_uint n)).
  rewrite DecimalN.Unsigned.of_to.
  apply N.leb_le in B. now rewrite B.
Qed.

End ParseInt.

Lemma parseInt_blank (s : jsstring) :
  forallb JSString.isWhiteSpace s = true -> JSNumber.parseInt s = NaN.
Proof.
  intros H. unfold JSNumber.parseInt.
  assert (T : JSString.trimStart s = []).
  { unfold JSString.trimStart. induction s as [|c t IH]; [reflexivity|].
    simpl in H. apply andb_true_iff in H as [Hc Ht].
    simpl. rewrite Hc. now apply IH. }
  now rewrite T.
Qed.

(** X1.  The default port 8080 is used when PORT is unset and only
    then: a PORT that is set but empty or blank gives NaN. *)
Theorem port_default_only_when_unset (env : Env) :
  (env (js "PORT") = None -> loadedPort (newConfig env) = Int 8080)
  /\ (forall s,
        env (js "PORT") = Some s ->
        forallb JSString.isWhiteSpace s = true ->
        loadedPort (newConfig env) = NaN).
Proof.
  split.
  - intros E. unfold newConfig. cbn [loadedPort]. rewrite E. reflexivity.
  - intros s E B. unfold newConfig. cbn [loadedPort]. rewrite E.
    cbn [orElse]. apply (parseInt_blank s B).
Qed.

Lemma port_default_only_when_unset_witness :
  (fun _ => None) (js "PORT") = (None : option jsstring)
  /\ loadedPort (newConfig (fun _ => None)) = Int 8080
  /\ blankPortEnv (js "PORT") = Some (js "  ")
  /\ loadedPort (newConfig blankPortEnv) = NaN.
Proof.
  split; [reflexivity|].
  split; [apply (proj1 (port_default_only_when_unset (fun _ => None)));
          reflexivity|].
  split; [reflexivity|].
  apply (proj2 (port_default_only_when_unset blankPortEnv) (js "  "));
    reflexivity.
Defined.

(** X2.  A PORT that holds a natural number in decimal, alone or
    followed by text that does not continue the number, gives that
    number as the port. *)
Theorem port_read_from_decimal (env : Env) (n : N) (tail : jsstring) :
  env (js "PORT") = Some (URL.decimal n ++ tail) ->
  endsNumber tail = true ->
  n <= 2 ^ 53 ->
  loadedPort (newConfig env) = Int (Z.of_N n)
  /\ exists cfg, asConfig (newConfig env) = Some cfg /\ port cfg = n.
Proof.
  intros E T B.
  assert (P : loadedPort (newConfig env) = Int (Z.of_N n)).
  { unfold newConfig. cbn [loadedPort]. rewrite E. cbn [orElse].
    now apply parseInt_decimal. }
  split; [exact P|].
  unfold asConfig. rewrite P.
  destruct (Z.leb_spec 0 (Z.of_N n)) as [_|L]; [|lia].
  eexists. split; [reflexivity|]. cbn [port]. apply N2Z.id.
Qed.

Lemma port_read_from_decimal_witness :
  port3000Env (js "PORT") = Some (URL.decimal 3000 ++ js "/tcp")
  /\ loadedPort (newConfig port3000Env) = Int 3000
  /\ exists cfg, asConfig (newConfig port3000Env) = Some cfg /\ port cfg = 3000.
Proof.
  split; [reflexivity|].
  apply (port_read_from_decimal port3000Env 3000 (js "/tcp"));
    [reflexivity | reflexivity | vm_compute; discriminate].
Defined.

(** ** Request rewriter and handler, beyond the claims *)

(** X3.  With ORY_PROJECT_HOST unset the configured host is empty, the
    [hostname] setter gives up, and the request rewriter returns a
    request for the very URL of the inbound request. *)
Theorem unset_host_forwards_to_self
  (parseHost : bool -> jsstring -> option jsstring)
  (env : Env) (cfg : Config) (req : Request.t) :
  env (js "ORY_PROJECT_HOST") = None ->
  asConfig (newConfig env) = Some cfg ->
  accepted req = true ->
  isValue (appOrigin cfg) = true ->
  isValue (apiKey (ory cfg)) = true ->
  exists out,
    newRequestRewriter parseHost cfg req = Normal out
    /\ Request.url out = Request.url req.
Proof.
  intros E C Ha Ho Hk.
  assert (H : projectHost (ory cfg) = []).
  { unfold asConfig in C. destruct (loadedPort (newConfig env)); try discriminate.
    destruct (0 <=? z)%Z; [|discriminate]. injection C as <-.
    cbn [ory]. unfold newConfig. cbn [loadedOry projectHost]. now rewrite E. }
  destruct (newRequestRewriter_spec parseHost cfg req Ha Ho Hk)
    as [out [R [U _]]].
  exists out. split; [exact R|]. rewrite U, H.
  apply set_hostname_empty.
  unfold accepted in Ha. apply andb_true_iff in Ha as [Ha _].
  now apply andb_true_iff in Ha as [Ha _].
Qed.

Lemma unset_host_forwards_to_self_witness :
  asConfig (newConfig (fun _ => None))
  = Some {| port := 8080; appOrigin := [];
            ory := {| projectHost := []; apiKey := [] |} |}
  /\ exists out,
       newRequestRewriter parseHostExample
         {| port := 8080; appOrigin := [];
            ory := {| projectHost := []; apiKey := [] |} |} loginRequest
       = Normal out
       /\ Request.url out = Request.url loginRequest.
Proof.
  split; [reflexivity|].
  apply (unset_host_forwards_to_self parseHostExample (fun _ => None));
    reflexivity.
Defined.

Lemma get_lower (h : Headers.t) (m n : jsstring) :
  Headers.lower m = Headers.lower n -> Headers.get h m = Headers.get h n.
Proof. intros E. unfold Headers.get. now rewrite (values_lower h m n E). Qed.



(** X5.  A request with a forbidden method (CONNECT, TRACE, TRACK in any
    case), or with a body on GET or HEAD, makes the request rewriter
    throw a TypeError, and the handler answers a proxied path with that
    error without calling upstream. *)
Theorem rejected_request_never_forwarded
  (parseURL : jsstring -> option URL.t)
  (parseHost : bool -> jsstring -> option jsstring)
  (fetch : Request.t -> completion Response.t)
  (cfg : Config) (req : Request.t) :
  Request.forbiddenMethod (Request.method req) = true
  \/ (Request.body req <> None
      /\ Request.oneOf (Request.normalizeMethod (Request.method req))
           [js "GET"; js "HEAD"] = true) ->
  newRequestRewriter parseHost cfg req = Throw TypeError
  /\ (URL.pathname (Request.url req) <> js "/" ->
      newHandler parseURL parseHost fetch cfg req = ([], Throw TypeError)).
Proof.
  intros H.
  assert (R : newRequestRewriter parseHost cfg req = Throw TypeError).
  { unfold newRequestRewriter, Request.new.
    destruct H as [F | [B G]].
    - now rewrite F.
    - destruct (Request.forbiddenMethod (Request.method req)); [reflexivity|].
      destruct (Request.body req); [|contradiction]. now rewrite G. }
  split; [exact R|].
  intros P. unfold newHandler. apply jseqb_neq in P. now rewrite P, R.
Qed.

Lemma set_invalid (h : Headers.t) (n v : jsstring) :
  Headers.validValue (Headers.normalize v) = false ->
  Headers.set h n v = Throw TypeError.
Proof. unfold Headers.set. now intros ->. Qed.

Lemma set_throws (h : Headers.t) (n v : jsstring) (e : exn) :
  Headers.set h n v = Throw e -> e = TypeError.
Proof.
  unfold Headers.set. destruct (Headers.validValue _); [discriminate|].
  now intros [= <-].
Qed.

Lemma Request_new_throws (u : URL.t) (req : Request.t) (e : exn) :
  Request.new u req = Throw e -> e = TypeError.
Proof.
  unfold Request.new.
  destruct (Request.forbiddenMethod _); [now intros [= <-]|].
  destruct (Request.body req); [|discriminate].
  destruct (Request.oneOf _ _); [now intros [= <-] | discriminate].
Qed.

(** X6.  A configured public origin or API key that is not a header
    value once its surrounding white space is stripped (a line break or
    a NUL inside, a code unit above 255) makes the request rewriter throw
    a TypeError for every request, so that no proxied request reaches
    upstream. *)
Theorem invalid_config_value_blocks_proxy
  (parseURL : jsstring -> option URL.t)
  (parseHost : bool -> jsstring -> option jsstring)
  (fetch : Request.t -> completion Response.t)
  (cfg : Config) (req : Request.t) :
  Headers.validValue (Headers.normalize (appOrigin cfg)) = false
  \/ Headers.validValue (Headers.normalize (apiKey (ory cfg))) = false ->
  newRequestRewriter parseHost cfg req = Throw TypeError
  /\ (URL.pathname (Request.url req) <> js "/" ->
      newHandler parseURL parseHost fetch cfg req = ([], Throw TypeError)).
Proof.
  intros H.
  assert (R : newRequestRewriter parseHost cfg req = Throw TypeError).
  { unfold newRequestRewriter.
    destruct (Request.new _ req) as [p|e] eqn:N.
    - cbn [bind].
      destruct (set_value (Request.headers p)
                  (js "Ory-No-Custom-Domain-Redirect") (js "true") eq_refl)
        as [h1 [E1 _]].
      rewrite E1. cbn [bind].
      destruct H as [H | H].
      + now rewrite (set_invalid _ _ _ H).
      + destruct (Headers.set h1 (js "Ory-Base-URL-Rewrite") (appOrigin cfg))
          as [h2|e] eqn:E2.
        * cbn [bind]. now rewrite (set_invalid _ _ _ H).
        * now rewrite (set_throws _ _ _ _ E2).
    - now rewrite (Request_new_throws _ _ _ N). }
  split; [exact R|].
  intros P. unfold newHandler. apply jseqb_neq in P. now rewrite P, R.
Qed.

Lemma byteUpperCase_idempotent (m : jsstring) :
  Request.byteUpperCase (Request.byteUpperCase m) = Request.byteUpperCase m.
Proof.
  unfold Request.byteUpperCase. rewrite map_map. apply map_ext. intros c.
  destruct ((97 <=? c) && (c <=? 122)) eqn:E; [|now rewrite E].
  apply andb_true_iff in E as [E1 E2].
  apply N.leb_le in E1. apply N.leb_le in E2.
  destruct (N.leb_spec 97 (c - 32)) as [L|L]; [lia | reflexivity].
Qed.

Lemma byteUpperCase_normalizeMethod (m : jsstring) :
  Request.byteUpperCase (Request.normalizeMethod m) = Request.byteUpperCase m.
Proof.
  unfold Request.normalizeMethod. destruct (Request.oneOf _ _);
    [apply byteUpperCase_idempotent | reflexivity].
Qed.

Lemma normalizeMethod_idempotent (m : jsstring) :
  Request.normalizeMethod (Request.normalizeMethod m)
  = Request.normalizeMethod m.
Proof.
  unfold Request.normalizeMethod at 1.
  rewrite byteUpperCase_normalizeMethod.
  unfold Request.normalizeMethod.
  destruct (Request.oneOf (Request.byteUpperCase m) _) eqn:E; reflexivity.
Qed.

(** A request that came out of the rewriter is accepted again. *)
Lemma accepted_again
  (parseHost : bool -> jsstring -> option jsstring)
  (cfg : Config) (req out : Request.t) :
  accepted req = true ->
  newRequestRewriter parseHost cfg req = Normal out ->
  accepted out = true.
Proof.
  intros Ha E. unfold newRequestRewriter in E.
  rewrite (Request_new_accepted _ _ Ha) in E. cbn [bind] in E.
  apply bind_Normal in E as [h1 [_ E]].
  apply bind_Normal in E as [h2 [_ E]].
  apply bind_Normal in E as [h3 [_ E]].
  apply bind_Normal in E as [h4 [_ E]].
  injection E as <-.
  unfold accepted in *.
  cbn [Request.with_headers Request.url Request.method Request.body].
  destruct (set_hostname_frame parseHost (Request.url req)
              (projectHost (ory cfg))) as [-> _].
  unfold Request.forbiddenMethod in *.
  rewrite byteUpperCase_normalizeMethod, normalizeMethod_idempotent.
  exact Ha.
Qed.

(** X7.  Rewriting a request that the rewriter has already rewritten
    changes nothing that can be observed: same URL, method and body, and
    the same value under every header name. *)
Theorem request_rewriter_idempotent
  (parseHost : bool -> jsstring -> option jsstring)
  (cfg : Config) (req : Request.t) :
  accepted req = true ->
  isValue (appOrigin cfg) = true ->
  isValue (apiKey (ory cfg)) = true ->
  canonicalHost parseHost (projectHost (ory cfg)) ->
  exists once twice,
    newRequestRewriter parseHost cfg req = Normal once
    /\ newRequestRewriter parseHost cfg once = Normal twice
    /\ Request.url twice = Request.url once
    /\ Request.method twice = Request.method once
    /\ Request.body twice = Request.body once
    /\ forall name,
         Headers.get (Request.headers twice) name
         = Headers.get (Request.headers once) name.
Proof.
  intros Ha Ho Hk Hc.
  destruct (newRequestRewriter_spec parseHost cfg req Ha Ho Hk)
    as [once [E1 [U1 [M1 [B1 [A1 [A2 [A3 [A4 F1]]]]]]]]].
  pose proof (accepted_again parseHost cfg req once Ha E1) as Ha'.
  destruct (newRequestRewriter_spec parseHost cfg once Ha' Ho Hk)
    as [twice [E2 [U2 [M2 [B2 [C1 [C2 [C3 [C4 F2]]]]]]]]].
  exists once, twice. repeat (split; [assumption|]).
  assert (S : URL.isSpecial (URL.scheme (Request.url once)) = true).
  { unfold accepted in Ha'. apply andb_true_iff in Ha' as [H _].
    now apply andb_true_iff in H as [H _]. }
  split.
  { rewrite U2. unfold URL.set_hostname.
    rewrite (hostname_for_canonical parseHost _ _ S Hc).
    rewrite U1 at 2. unfold URL.set_hostname.
    assert (S0 : URL.isSpecial (URL.scheme (Request.url req)) = true).
    { unfold accepted in Ha. apply andb_true_iff in Ha as [H _].
      now apply andb_true_iff in H as [H _]. }
    rewrite (hostname_for_canonical parseHost _ _ S0 Hc).
    rewrite U1. unfold URL.set_hostname.
    rewrite (hostname_for_canonical parseHost _ _ S0 Hc). reflexivity. }
  split.
  { rewrite M2, M1. apply normalizeMethod_idempotent. }
  split; [exact B2|].
  intros name.
  destruct (in_dec (list_eq_dec N.eq_dec) (Headers.lower name)
              (map Headers.lower controlNames)) as [I|I].
  - assert (V : forall n, Headers.lower name = Headers.lower n ->
                  Headers.values (Request.headers twice) n
                  = Headers.values (Request.headers once) n ->
                  Headers.get (Request.headers twice) name
                  = Headers.get (Request.headers once) name).
    { intros n L V. rewrite !(get_lower _ name n L). now apply get_by_values. }
    cbn [map controlNames In] in I.
    destruct I as [I | [I | [I | [I | []]]]]; symmetry in I.
    + apply (V _ I). now rewrite C1, A1.
    + apply (V _ I). now rewrite C2, A2.
    + apply (V _ I). now rewrite C3, A3.
    + apply (V _ I). now rewrite C4, A4.
  - apply get_by_values. now apply F2.
Qed.

Lemma request_rewriter_idempotent_witness :
  accepted localRequest = true
  /\ canonicalHost parseHostExample (projectHost (ory configExample))
  /\ exists once twice,
       newRequestRewriter parseHostExample configExample localRequest
       = Normal once
       /\ newRequestRewriter parseHostExample configExample once
          = Normal twice
       /\ Request.url twice = Request.url once
       /\ Request.method twice = Request.method once
       /\ Request.body twice = Request.body once
       /\ forall name,
            Headers.get (Request.headers twice) name
            = Headers.get (Request.headers once) name.
Proof.
  assert (C : canonicalHost parseHostExample (projectHost (ory configExample))).
  { repeat split; vm_compute; reflexivity. }
  split; [reflexivity|]. split; [exact C|].
  apply (request_rewriter_idempotent parseHostExample configExample
           localRequest); [reflexivity | reflexivity | reflexivity | exact C].
Defined.

(** ** Response rewriter, beyond the claims *)

Lemma split_from_length (c : N) (rest : jsstring) :
  forall cur,
    length (JSString.split_from [c] cur rest 0)
    = S (count_occ N.eq_dec rest c).
Proof.
  induction rest as [|d t IH]; intros cur; [reflexivity|].
  rewrite split_from_step. cbn [count_occ].
  destruct (N.eqb_spec c d) as [->|Hn].
  - destruct (N.eq_dec d d) as [_|N]; [|contradiction]. cbn [length].
    now rewrite IH.
  - destruct (N.eq_dec d c) as [E|_]; [congruence|]. apply IH.
Qed.

Lemma split_length (c : N) (s : jsstring) :
  length (JSString.split s [c]) = S (count_occ N.eq_dec s c).
Proof. apply split_from_length. Qed.

Section ResponseFurther.

Variable parseURL : jsstring -> option URL.t.
Variables upstreamHost newOrigin : jsstring.
Variables upstreamURL publicURL : URL.t.
Hypothesis parse_upstream :
  parseURL (js "https://" ++ upstreamHost) = Some upstreamURL.
Hypothesis parse_public : parseURL newOrigin = Some publicURL.
Hypothesis ascii_upstream : asciiHost upstreamURL = true.
Hypothesis ascii_public : asciiHost publicURL = true.
Hypothesis origin_plain : forallb plain newOrigin = true.


(** X9.  The rewriter adds nothing: the rewritten response has a
    Set-Cookie header, a Location header or a body exactly when the
    upstream response has one. *)
Theorem nothing_added (r : Response.t) :
  fetched r = true ->
  exists out,
    newResponseRewriter parseURL upstreamHost newOrigin r = Normal out
    /\ Headers.has (Response.headers out) (js "Set-Cookie")
       = Headers.has (Response.headers r) (js "Set-Cookie")
    /\ Headers.has (Response.headers out) (js "Location")
       = Headers.has (Response.headers r) (js "Location")
    /\ (Response.body out = None <-> Response.body r = None).
Proof.
  intros F. eexists. split.
  { apply (newResponseRewriter_result parseURL upstreamHost newOrigin
             upstreamURL publicURL); assumption. }
  cbn [Response.headers Response.body]. split; [|split].
  - rewrite has_values.
    rewrite (headersOut_cookies newOrigin upstreamURL publicURL).
    rewrite get_has.
    destruct (Headers.get (Response.headers r) (js "Set-Cookie")) as [s|];
      [|reflexivity].
    change (js ",") with [44].
    pose proof (split_from_nonempty 44 s []) as N.
    unfold JSString.split.
    destruct (JSString.split_from [44] [] s 0); [contradiction | reflexivity].
  - rewrite !get_has. unfold headersOut. rewrite locationResult_get.
    rewrite (get_by_values (Response.headers r) (cookieResult _ _ _ _ _)
               (js "Location"))
      by (apply cookieResult_other; vm_compute; discriminate).
    now destruct (Headers.get (Response.headers r) (js "Location")).
  - unfold bodyOut. destruct (Response.body r); [|tauto].
    destruct (textual r); split; discriminate.
Qed.

(** X10.  The number of Set-Cookie headers of the rewritten response is
    one more than the number of commas in the Set-Cookie value of the
    upstream response, as [get] joins it. *)
Theorem set_cookie_count (r : Response.t) (s : jsstring) :
  fetched r = true ->
  Headers.get (Response.headers r) (js "Set-Cookie") = Some s ->
  exists out,
    newResponseRewriter parseURL upstreamHost newOrigin r = Normal out
    /\ length (Headers.values (Response.headers out) (js "Set-Cookie"))
       = S (count_occ N.eq_dec s 44).
Proof.
  intros F G. eexists. split.
  { apply (newResponseRewriter_result parseURL upstreamHost newOrigin
             upstreamURL publicURL); assumption. }
  cbn [Response.headers].
  rewrite (headersOut_cookies newOrigin upstreamURL publicURL), G.
  rewrite length_map. change (js ",") with [44]. apply split_length.
Qed.

End ResponseFurther.

(** ** ASCII text through the codec *)

Lemma stripBOM_ascii (l : list N) :
  asciiUnits l = true -> Utf8.stripBOM l = l.
Proof.
  destruct l as [|x l]; [reflexivity|]. intros H.
  simpl in H. apply andb_true_iff in H as [H _]. apply N.ltb_lt in H.
  destruct x as [|p]; [reflexivity|].
  unfold Utf8.stripBOM.
  do 8 (destruct p as [p|p|]; try reflexivity); exfalso; lia.
Qed.

Lemma decode_from_ascii (l : list N) :
  asciiUnits l = true -> Utf8.decode_from Utf8.idle l = l.
Proof.
  induction l as [|b t IH]; [reflexivity|]. intros H.
  simpl in H. apply andb_true_iff in H as [Hb Ht]. apply N.ltb_lt in Hb.
  cbn [Utf8.decode_from Utf8.remaining Utf8.idle]. cbn [N.eqb].
  unfold Utf8.start. destruct (N.leb_spec b 0x7F) as [_|L]; [|lia].
  cbn [app]. f_equal. now apply IH.
Qed.

Lemma utf16_ascii (l : list N) :
  asciiUnits l = true -> flat_map Utf8.utf16 l = l.
Proof.
  induction l as [|b t IH]; [reflexivity|]. intros H.
  simpl in H. apply andb_true_iff in H as [Hb Ht]. apply N.ltb_lt in Hb.
  cbn [flat_map]. unfold Utf8.utf16 at 1.
  destruct (N.ltb_spec b 0x10000) as [_|L]; [|lia].
  cbn [app]. f_equal. now apply IH.
Qed.

Lemma to_N_ascii (bs : bytes) :
  forallb (fun b => Byte.to_N b <? 128) bs = true ->
  asciiUnits (map Byte.to_N bs) = true.
Proof.
  unfold asciiUnits. induction bs as [|b bs IH]; [reflexivity|].
  simpl. intros H. apply andb_true_iff in H as [Hb Ht].
  now rewrite Hb, IH.
Qed.

Lemma decode_ascii (bs : bytes) :
  forallb (fun b => Byte.to_N b <? 128) bs = true ->
  Utf8.decode bs = map Byte.to_N bs.
Proof.
  intros H. apply to_N_ascii in H. unfold Utf8.decode.
  now rewrite stripBOM_ascii, decode_from_ascii, utf16_ascii.
Qed.

Lemma scalars_ascii (s : jsstring) :
  asciiUnits s = true -> Utf8.scalars s = s.
Proof.
  induction s as [|c t IH]; [reflexivity|]. intros H.
  simpl in H. apply andb_true_iff in H as [Hc Ht]. apply N.ltb_lt in Hc.
  cbn [Utf8.scalars].
  unfold JSString.isLeadSurrogate, JSString.isTrailSurrogate.
  destruct (N.leb_spec 0xD800 c); [lia|].
  destruct (N.leb_spec 0xDC00 c); [lia|].
  cbn [andb]. f_equal. now apply IH.
Qed.

Lemma utf8_ascii (s : jsstring) :
  asciiUnits s = true -> flat_map JSString.utf8 s = s.
Proof.
  induction s as [|c t IH]; [reflexivity|]. intros H.
  simpl in H. apply andb_true_iff in H as [Hc Ht].
  cbn [flat_map]. unfold JSString.utf8 at 1.
  change (c <? 0x80) with (c <? 128). rewrite Hc.
  cbn [app]. f_equal. now apply IH.
Qed.

Lemma encode_ascii (s : jsstring) :
  asciiUnits s = true -> Utf8.encode s = map Utf8.byte_of_N s.
Proof.
  intros H. unfold Utf8.encode. now rewrite scalars_ascii, utf8_ascii.
Qed.

Lemma byte_of_to_N (bs : bytes) : map Utf8.byte_of_N (map Byte.to_N bs) = bs.
Proof.
  rewrite map_map. rewrite <- (map_id bs) at 2. apply map_ext.
  intros b. unfold Utf8.byte_of_N. now rewrite Byte.of_to_N.
Qed.

(** The codec returns an ASCII body as it came. *)
Lemma codec_roundtrip_ascii (bs : bytes) :
  forallb (fun b => Byte.to_N b <? 128) bs = true ->
  Utf8.encode (Utf8.decode bs) = bs.
Proof.
  intros H. rewrite (decode_ascii bs H).
  rewrite encode_ascii by now apply to_N_ascii. apply byte_of_to_N.
Qed.

(** ** The encoded registrable domain inside the encoded host *)

Lemma join_app (sep : jsstring) (l1 l2 : list jsstring) :
  l1 <> [] -> l2 <> [] ->
  JSString.join sep (l1 ++ l2)
  = JSString.join sep l1 ++ sep ++ JSString.join sep l2.
Proof.
  intros H1 H2. induction l1 as [|x l1 IH]; [contradiction|].
  destruct l1 as [|y l1].
  - cbn [app]. now rewrite join_cons.
  - change ((x :: y :: l1) ++ l2) with (x :: (y :: l1) ++ l2).
    rewrite join_cons by discriminate.
    rewrite IH by discriminate.
    rewrite (join_cons sep x (y :: l1)) by discriminate.
    now rewrite <- !app_assoc.
Qed.

Lemma registrable_suffix (u : URL.t) :
  exists pre, URL.host u = pre ++ registrable u.
Proof.
  unfold registrable, JSString.slice_last. change (js ".") with [46].
  set (l := JSString.split (URL.host u) [46]).
  assert (J : JSString.join [46] l = URL.host u) by apply join_split.
  destruct (Nat.le_gt_cases (length l) 2) as [L|L].
  - exists []. replace (length l - 2)%nat with 0%nat by lia.
    now rewrite skipn_O, J.
  - set (k := (length l - 2)%nat).
    exists (JSString.join [46] (firstn k l) ++ [46]).
    rewrite <- J at 1. rewrite <- (firstn_skipn k l) at 1.
    rewrite join_app.
    + now rewrite <- app_assoc.
    + intros E. apply (f_equal (@length jsstring)) in E.
      rewrite length_firstn in E. simpl in E. unfold k in E. lia.
    + intros E. apply (f_equal (@length jsstring)) in E.
      rewrite length_skipn in E. simpl in E. unfold k in E. lia.
Qed.

Lemma encodeURIComponent_app (x y ex ey : jsstring) :
  asciiUnits x = true ->
  JSString.encodeURIComponent x = Normal ex ->
  JSString.encodeURIComponent y = Normal ey ->
  JSString.encodeURIComponent (x ++ y) = Normal (ex ++ ey).
Proof.
  revert ex. induction x as [|c t IH]; intros ex A Hx Hy.
  - simpl in Hx. injection Hx as <-. exact Hy.
  - simpl in A. apply andb_true_iff in A as [Ac At]. apply N.ltb_lt in Ac.
    assert (L : JSString.isLeadSurrogate c = false).
    { unfold JSString.isLeadSurrogate.
      destruct (N.leb_spec 0xD800 c); [lia | reflexivity]. }
    assert (T : JSString.isTrailSurrogate c = false).
    { unfold JSString.isTrailSurrogate.
      destruct (N.leb_spec 0xDC00 c); [lia | reflexivity]. }
    cbn [app JSString.encodeURIComponent] in *. rewrite L, T in *.
    destruct (JSString.unreserved c);
      apply bind_Normal in Hx as [r [Hr Hx]]; injection Hx as <-;
      rewrite (IH r At Hr Hy); cbn [bind]; [reflexivity|].
    now rewrite <- app_assoc.
Qed.

Lemma encoded_host_contains_registrable (u : URL.t) :
  asciiHost u = true ->
  occurs (encoded (registrable u)) (encoded (URL.host u)).
Proof.
  intros A. destruct (registrable_suffix u) as [pre E].
  unfold asciiHost in A. rewrite E in A. rewrite forallb_app in A.
  apply andb_true_iff in A as [Ap Ar].
  destruct (encodeURIComponent_ascii pre Ap) as [ep Hp].
  destruct (encodeURIComponent_ascii _ Ar) as [er Hr].
  rewrite E at 1.
  rewrite (encoded_eq _ _ (encodeURIComponent_app _ _ _ _ Ap Hp Hr)).
  rewrite (encoded_eq _ _ Hr). exists ep, []. now rewrite app_nil_r.
Qed.

Lemma occurs_trans (p q s : jsstring) : occurs p q -> occurs q s -> occurs p s.
Proof.
  intros [a [b ->]] [x [y ->]]. exists (x ++ a), (b ++ y).
  now rewrite <- !app_assoc.
Qed.

(** X11.  A cookie in which the URL-encoded registrable domain of the
    upstream host does not occur is appended as it is, trimmed of
    leading white space only: the encoded host contains the encoded
    registrable domain, so the first pass finds nothing either. *)
Theorem cookie_without_domain_only_trimmed
  (upstreamURL publicURL : URL.t) (cookie : jsstring) :
  asciiHost upstreamURL = true ->
  asciiHost publicURL = true ->
  ~ occurs (encoded (registrable upstreamURL)) (JSString.trimStart cookie) ->
  rewriteCookie upstreamURL publicURL cookie
  = Normal (JSString.trimStart cookie).
Proof.
  intros Au Ap O.
  rewrite (rewriteCookie_passes upstreamURL publicURL
             (encoded (URL.host upstreamURL)) (encoded (URL.host publicURL))
             (encoded (registrable upstreamURL))
             (encoded (registrable publicURL)));
    auto using encoded_host, encoded_registrable.
  unfold passes. f_equal.
  rewrite (replaceAll_absent _ (encoded (URL.host upstreamURL))).
  - now apply replaceAll_absent.
  - intros H. apply O.
    eapply occurs_trans; [|exact H].
    now apply encoded_host_contains_registrable.
Qed.

Lemma cookie_without_domain_only_trimmed_witness :
  asciiHost upstreamExample = true
  /\ ~ occurs (encoded (registrable upstreamExample))
         (JSString.trimStart (js " theme=dark; Path=/"))
  /\ rewriteCookie upstreamExample publicExample (js " theme=dark; Path=/")
     = Normal (JSString.trimStart (js " theme=dark; Path=/")).
Proof.
  assert (O : ~ occurs (encoded (registrable upstreamExample))
                  (JSString.trimStart (js " theme=dark; Path=/"))).
  { apply occursb_false. vm_compute. reflexivity. }
  split; [reflexivity|]. split; [exact O|].
  apply (cookie_without_domain_only_trimmed upstreamExample publicExample);
    [reflexivity | reflexivity | exact O].
Defined.

Section ResponseEdges.

Variable parseURL : jsstring -> option URL.t.
Variables upstreamHost newOrigin : jsstring.
Variable upstreamURL : URL.t.
Hypothesis parse_upstream :
  parseURL (js "https://" ++ upstreamHost) = Some upstreamURL.
Hypothesis origin_plain : forallb plain newOrigin = true.

Lemma wfHeaders_location (r : Response.t) :
  fetched r = true ->
  Forall valueBytes (Headers.values (Response.headers r) (js "Location")).
Proof.
  intros F. unfold fetched in F. apply andb_true_iff in F as [_ W].
  eapply Forall_impl; [|apply (wfHeaders_values _ _ W)].
  intros v Hv. now apply isValue_valueBytes.
Qed.

(** X12.  The public origin is parsed only for a response that has a
    Set-Cookie header: without one the rewriter succeeds whether or not
    the public origin is a URL, and with one an unparseable public
    origin makes it throw a TypeError. *)
Theorem public_origin_parsed_for_cookies_only (r : Response.t) :
  fetched r = true ->
  parseURL newOrigin = None ->
  (Headers.has (Response.headers r) (js "Set-Cookie") = false ->
   exists out,
     newResponseRewriter parseURL upstreamHost newOrigin r = Normal out
     /\ Response.status out = Response.status r)
  /\ (Headers.has (Response.headers r) (js "Set-Cookie") = true ->
      newResponseRewriter parseURL upstreamHost newOrigin r
      = Throw TypeError).
Proof.
  intros F P. unfold newResponseRewriter, constructURL.
  rewrite parse_upstream. cbn [bind].
  rewrite (Response_new_fetched _ _ _ F). cbn [bind Response.headers].
  split; intros H; rewrite H; [|now rewrite P].
  cbn [bind].
  destruct (Headers.has (Response.headers r) (js "Location")).
  - rewrite (rewriteLocation_eq _ _ origin_plain)
      by now apply wfHeaders_location.
    cbn [bind]. eexists. split; reflexivity.
  - cbn [bind]. eexists. split; reflexivity.
Qed.

End ResponseEdges.

Section AsciiBody.

Variable parseURL : jsstring -> option URL.t.
Variables upstreamHost newOrigin : jsstring.
Variables upstreamURL publicURL : URL.t.
Hypothesis parse_upstream :
  parseURL (js "https://" ++ upstreamHost) = Some upstreamURL.
Hypothesis parse_public : parseURL newOrigin = Some publicURL.
Hypothesis ascii_upstream : asciiHost upstreamURL = true.
Hypothesis ascii_public : asciiHost publicURL = true.
Hypothesis origin_plain : forallb plain newOrigin = true.
Hypothesis origin_ascii : asciiUnits newOrigin = true.

(** X13.  On a text body made of ASCII bytes the rewrite is a
    substitution on the bytes themselves: the body returned is the
    bytes of the upstream body with the upstream origin replaced by the
    public origin, and the very same bytes when the upstream origin
    does not occur among them. *)
Theorem ascii_body_substituted_bytewise (r : Response.t) (bs : bytes) :
  fetched r = true ->
  textual r = true ->
  Response.body r = Some bs ->
  forallb (fun b => Byte.to_N b <? 128) bs = true ->
  exists out,
    newResponseRewriter parseURL upstreamHost newOrigin r = Normal out
    /\ Response.body out
       = Some (map Utf8.byte_of_N
                 (JSString.replaceAll (map Byte.to_N bs)
                    (URL.origin upstreamURL) newOrigin))
    /\ (~ occurs (URL.origin upstreamURL) (map Byte.to_N bs) ->
        Response.body out = Some bs).
Proof.
  intros F T B A. eexists. split.
  { apply (newResponseRewriter_result parseURL upstreamHost newOrigin
             upstreamURL publicURL); assumption. }
  cbn [Response.body]. unfold bodyOut. rewrite B, T, (decode_ascii bs A).
  assert (E : Utf8.encode
                (JSString.replaceAll (map Byte.to_N bs)
                   (URL.origin upstreamURL) newOrigin)
              = map Utf8.byte_of_N
                  (JSString.replaceAll (map Byte.to_N bs)
                     (URL.origin upstreamURL) newOrigin)).
  { apply encode_ascii. apply forallb_Forall.
    apply replaceAll_Forall;
      [now apply plain_literal | now apply forallb_Forall |].
    apply forallb_Forall. now apply to_N_ascii. }
  rewrite E. split; [reflexivity|].
  intros O. rewrite (replaceAll_absent _ _ _ O). now rewrite byte_of_to_N.
Qed.

End AsciiBody.

Lemma ascii_body_substituted_bytewise_witness :
  fetched htmlResponse = true
  /\ textual htmlResponse = true
  /\ forallb (fun b => Byte.to_N b <? 128) pageBody = true
  /\ exists out,
       newResponseRewriter parseExample (js "upstream.example.com")
         (js "https://app.example.org") htmlResponse = Normal out
       /\ Response.body out
          = Some (map Utf8.byte_of_N
                    (JSString.replaceAll (map Byte.to_N pageBody)
                       (URL.origin upstreamExample)
                       (js "https://app.example.org")))
       /\ (~ occurs (URL.origin upstreamExample) (map Byte.to_N pageBody) ->
           Response.body out = Some pageBody).
Proof.
  repeat (split; [reflexivity|]).
  apply (ascii_body_substituted_bytewise parseExample
           (js "upstream.example.com") (js "https://app.example.org")
           upstreamExample publicExample); reflexivity.
Defined.

(** X14.  On a proxied path the handler hands one request to [fetch],
    the rewritten one, and what [fetch] answers reaches the client with
    the same status and status text, and a Location with its first
    upstream origin rewritten. *)
Theorem upstream_answer_handed_on
  (parseURL : jsstring -> option URL.t)
  (parseHost : bool -> jsstring -> option jsstring)
  (fetch : Request.t -> completion Response.t)
  (cfg : Config) (req out : Request.t) (r : Response.t)
  (upstreamURL publicURL : URL.t) :
  URL.pathname (Request.url req) <> js "/" ->
  newRequestRewriter parseHost cfg req = Normal out ->
  fetch out = Normal r ->
  fetched r = true ->
  parseURL (js "https://" ++ projectHost (ory cfg)) = Some upstreamURL ->
  parseURL (appOrigin cfg) = Some publicURL ->
  asciiHost upstreamURL = true ->
  asciiHost publicURL = true ->
  forallb plain (appOrigin cfg) = true ->
  exists res,
    newHandler parseURL parseHost fetch cfg req = ([out], Normal res)
    /\ Response.status res = Response.status r
    /\ Response.statusText res = Response.statusText r
    /\ Headers.get (Response.headers res) (js "Location")
       = match Headers.get (Response.headers r) (js "Location") with
         | None => None
         | Some l =>
             Some (Headers.normalize
                     (JSString.replace l (URL.origin upstreamURL)
                        (appOrigin cfg)))
         end.
Proof.
  intros P E Q F Pu Pp Au Ap Op.
  unfold newHandler. apply jseqb_neq in P. rewrite P, E, Q. cbn [bind].
  rewrite (newResponseRewriter_result parseURL (projectHost (ory cfg))
             (appOrigin cfg) upstreamURL publicURL Pu Pp Au Ap Op r F).
  eexists. split; [reflexivity|].
  cbn [Response.status Response.statusText Response.headers].
  repeat split.
  unfold headersOut. rewrite locationResult_get.
  now rewrite (get_by_values (Response.headers r) (cookieResult _ _ _ _ _)
                 (js "Location"))
    by (apply cookieResult_other; vm_compute; discriminate).
Qed.

(** X16.  The second cookie rewriter yields the last two labels of a
    host with at least two labels, joined by a dot, and the whole host
    when it has no dot. *)
Theorem second_rewriter_labels (u : URL.t) :
  (forall labels l1 l2,
     URL.host u = JSString.join (js ".") (labels ++ [l1; l2]) ->
     Forall (fun l => ~ In 46 l) (labels ++ [l1; l2]) ->
     nth 1 cookieRewriters (fun _ => []) u = l1 ++ js "." ++ l2)
  /\ (~ In 46 (URL.host u) ->
      nth 1 cookieRewriters (fun _ => []) u = URL.host u).
Proof.
  split.
  - intros labels l1 l2 E F. now apply (registrable_last_two u labels).
  - intros F. cbn [nth cookieRewriters]. change (js ".") with [46].
    now rewrite split_free.
Qed.

Lemma second_rewriter_labels_witness :
  URL.host upstreamExample
  = JSString.join (js ".") ([js "upstream"] ++ [js "example"; js "com"])
  /\ nth 1 cookieRewriters (fun _ => []) upstreamExample
     = js "example" ++ js "." ++ js "com"
  /\ ~ In 46 (URL.host (Request.url localRequest))
  /\ nth 1 cookieRewriters (fun _ => []) (Request.url localRequest)
     = URL.host (Request.url localRequest).
Proof.
  assert (N : ~ In 46 (URL.host (Request.url localRequest))).
  { apply not_In_by_search. vm_compute. reflexivity. }
  split; [reflexivity|].
  split.
  - apply (proj1 (second_rewriter_labels upstreamExample) [js "upstream"]);
      [reflexivity|].
    repeat constructor; apply not_In_by_search; vm_compute; reflexivity.
  - split; [exact N|].
    apply (proj2 (second_rewriter_labels (Request.url localRequest)) N).
Defined.

(** X17.  An upstream response whose status lies outside 200-599 and
    is not 101 makes the rewriter throw a RangeError, whatever else it
    carries. *)
Theorem out_of_range_status_throws
  (parseURL : jsstring -> option URL.t)
  (upstreamHost newOrigin : jsstring) (upstreamURL : URL.t)
  (r : Response.t) :
  parseURL (js "https://" ++ upstreamHost) = Some upstreamURL ->
  Response.status r < 200 \/ 599 < Response.status r ->
  Response.status r <> 101 ->
  newResponseRewriter parseURL upstreamHost newOrigin r = Throw RangeError.
Proof.
  intros P H N. unfold newResponseRewriter, constructURL. rewrite P.
  cbn [bind]. unfold Response.new.
  assert (B : (200 <=? Response.status r) && (Response.status r <=? 599)
              = false).
  { destruct (N.leb_spec 200 (Response.status r)); [|reflexivity].
    destruct (N.leb_spec (Response.status r) 599); [lia | reflexivity]. }
  apply N.eqb_neq in N. now rewrite B, N.
Qed.

Lemma out_of_range_status_throws_witness :
  599 < Response.status status999
  /\ Response.status status999 <> 101
  /\ newResponseRewriter parseExample (js "upstream.example.com")
       (js "https://app.example.org") status999 = Throw RangeError.
Proof.
  assert (H : 599 < Response.status status999) by (vm_compute; reflexivity).
  assert (N : Response.status status999 <> 101) by (vm_compute; discriminate).
  split; [exact H|]. split; [exact N|].
  apply (out_of_range_status_throws parseExample (js "upstream.example.com")
           (js "https://app.example.org") upstreamExample status999);
    [reflexivity | right; exact H | exact N].
Defined.

Section ByteOrderMark.

Variable parseURL : jsstring -> option URL.t.
Variables upstreamHost newOrigin : jsstring.
Variables upstreamURL publicURL : URL.t.
Hypothesis parse_upstream :
  parseURL (js "https://" ++ upstreamHost) = Some upstreamURL.
Hypothesis parse_public : parseURL newOrigin = Some publicURL.
Hypothesis ascii_upstream : asciiHost upstreamURL = true.
Hypothesis ascii_public : asciiHost publicURL = true.
Hypothesis origin_plain : forallb plain newOrigin = true.

(** X18.  A text body that starts with the UTF-8 byte order mark comes
    back without it: with ASCII text after the mark and no upstream
    origin in it, the body returned is that text alone. *)
Theorem byte_order_mark_dropped (r : Response.t) (bs : bytes) :
  fetched r = true ->
  textual r = true ->
  Response.body r = Some (Byte.xef :: Byte.xbb :: Byte.xbf :: bs) ->
  forallb (fun b => Byte.to_N b <? 128) bs = true ->
  ~ occurs (URL.origin upstreamURL) (map Byte.to_N bs) ->
  exists out,
    newResponseRewriter parseURL upstreamHost newOrigin r = Normal out
    /\ Response.body out = Some bs.
Proof.
  intros F T B A O. eexists. split.
  { apply (newResponseRewriter_result parseURL upstreamHost newOrigin
             upstreamURL publicURL); assumption. }
  cbn [Response.body]. unfold bodyOut. rewrite B, T.
  assert (D : Utf8.decode (Byte.xef :: Byte.xbb :: Byte.xbf :: bs)
              = map Byte.to_N bs).
  { unfold Utf8.decode.
    change (Utf8.stripBOM
              (map Byte.to_N (Byte.xef :: Byte.xbb :: Byte.xbf :: bs)))
      with (map Byte.to_N bs).
    pose proof (to_N_ascii bs A) as A'.
    now rewrite decode_from_ascii, utf16_ascii. }
  rewrite D, (replaceAll_absent _ _ _ O).
  rewrite encode_ascii by now apply to_N_ascii.
  now rewrite byte_of_to_N.
Qed.

End ByteOrderMark.

Lemma byte_order_mark_dropped_witness :
  fetched markedResponse = true
  /\ textual markedResponse = true
  /\ exists out,
       newResponseRewriter parseExample (js "upstream.example.com")
         (js "https://app.example.org") markedResponse = Normal out
       /\ Response.body out = Some (ascii_bytes "hello").
Proof.
  split; [reflexivity|]. split; [reflexivity|].
  apply (byte_order_mark_dropped parseExample (js "upstream.example.com")
           (js "https://app.example.org") upstreamExample publicExample);
    try reflexivity.
  apply occursb_false. vm_compute. reflexivity.
Defined.

Section StepsCommute.

Variables upstreamURL publicURL : URL.t.
Variable newOrigin : jsstring.
Hypothesis ascii_upstream : asciiHost upstreamURL = true.
Hypothesis ascii_public : asciiHost publicURL = true.
Hypothesis origin_plain : forallb plain newOrigin = true.

Let a := encoded (URL.host upstreamURL).
Let b := encoded (URL.host publicURL).
Let c := encoded (registrable upstreamURL).
Let d := encoded (registrable publicURL).

(** The cookie step needs valid values under Set-Cookie only. *)
Lemma rewriteCookieDomain_valid_cookies (h : Headers.t) :
  Forall valueBytes (Headers.values h (js "Set-Cookie")) ->
  rewriteCookieDomain h upstreamURL publicURL
  = Normal (cookieResult a b c d h).
Proof.
  intros W. unfold rewriteCookieDomain, cookieResult.
  destruct (Headers.get h (js "Set-Cookie")) as [s|] eqn:G; [|reflexivity].
  apply appendCookies_eq; auto using encoded_host, encoded_registrable.
  apply get_values in G as [_ ->].
  change (js ",") with [44]. apply split_Forall.
  apply join_Forall; [now repeat constructor | exact W].
Qed.

Lemma wfHeaders_valueBytes (h : Headers.t) (n : jsstring) :
  wfHeaders h = true -> Forall valueBytes (Headers.values h n).
Proof.
  intros W. eapply Forall_impl; [|apply (wfHeaders_values _ _ W)].
  intros v Hv. now apply isValue_valueBytes.
Qed.

(** X19.  The cookie step and the location step can be run in either
    order: both orders succeed and leave the same value under every
    header name and the same Set-Cookie headers. *)
Theorem cookie_and_location_steps_commute (h : Headers.t) :
  wfHeaders h = true ->
  exists h1 h2 k1 k2,
    rewriteCookieDomain h upstreamURL publicURL = Normal h1
    /\ rewriteLocation h1 (URL.origin upstreamURL) newOrigin = Normal h2
    /\ rewriteLocation h (URL.origin upstreamURL) newOrigin = Normal k1
    /\ rewriteCookieDomain k1 upstreamURL publicURL = Normal k2
    /\ (forall name, Headers.get h2 name = Headers.get k2 name)
    /\ Headers.values h2 (js "Set-Cookie")
       = Headers.values k2 (js "Set-Cookie").
Proof.
  intros W.
  set (o := URL.origin upstreamURL).
  exists (cookieResult a b c d h),
    (locationResult o newOrigin (cookieResult a b c d h)),
    (locationResult o newOrigin h),
    (cookieResult a b c d (locationResult o newOrigin h)).
  assert (NL : Headers.lower (js "Location") <> js "set-cookie")
    by (vm_compute; discriminate).
  assert (NC : Headers.lower (js "Set-Cookie") <> js "location")
    by (vm_compute; discriminate).
  split.
  { apply rewriteCookieDomain_valid_cookies. now apply wfHeaders_valueBytes. }
  split.
  { apply rewriteLocation_eq; [assumption|].
    rewrite cookieResult_other by exact NL. now apply wfHeaders_valueBytes. }
  split.
  { apply rewriteLocation_eq; [assumption | now apply wfHeaders_valueBytes]. }
  split.
  { apply rewriteCookieDomain_valid_cookies.
    rewrite locationResult_other by exact NC. now apply wfHeaders_valueBytes. }
  assert (C : Headers.values (locationResult o newOrigin (cookieResult a b c d h))
                (js "Set-Cookie")
              = Headers.values
                  (cookieResult a b c d (locationResult o newOrigin h))
                  (js "Set-Cookie")).
  { rewrite locationResult_other by exact NC.
    rewrite !cookieResult_values.
    now rewrite (get_by_values h (locationResult o newOrigin h)
                   (js "Set-Cookie"))
      by (apply locationResult_other; exact NC). }
  split; [|exact C].
  intros name.
  destruct (list_eq_dec N.eq_dec (Headers.lower name) (js "set-cookie"))
    as [E|E].
  { rewrite !(get_lower _ name (js "Set-Cookie")) by exact E.
    now apply get_by_values. }
  destruct (list_eq_dec N.eq_dec (Headers.lower name) (js "location"))
    as [E'|E'].
  { rewrite !(get_lower _ name (js "Location")) by exact E'.
    rewrite locationResult_get.
    rewrite (get_by_values (locationResult o newOrigin h)
               (cookieResult a b c d (locationResult o newOrigin h))
               (js "Location"))
      by (apply cookieResult_other; exact NL).
    rewrite locationResult_get.
    now rewrite (get_by_values h (cookieResult a b c d h) (js "Location"))
      by (apply cookieResult_other; exact NL). }
  apply get_by_values.
  rewrite locationResult_other by exact E'.
  rewrite !cookieResult_other by exact E.
  now rewrite locationResult_other by exact E'.
Qed.

End StepsCommute.

Lemma cookie_and_location_steps_commute_witness :
  wfHeaders (Response.headers cleanResponse) = true
  /\ exists h1 h2 k1 k2,
       rewriteCookieDomain (Response.headers cleanResponse)
         upstreamExample publicExample = Normal h1
       /\ rewriteLocation h1 (URL.origin upstreamExample)
            (js "https://app.example.org") = Normal h2
       /\ rewriteLocation (Response.headers cleanResponse)
            (URL.origin upstreamExample) (js "https://app.example.org")
          = Normal k1
       /\ rewriteCookieDomain k1 upstreamExample publicExample = Normal k2
       /\ (forall name, Headers.get h2 name = Headers.get k2 name)
       /\ Headers.values h2 (js "Set-Cookie")
          = Headers.values k2 (js "Set-Cookie").
Proof.
  split; [reflexivity|].
  apply (cookie_and_location_steps_commute upstreamExample publicExample
           (js "https://app.example.org")); reflexivity.
Defined.

Lemma rejected_request_never_forwarded_witness :
  Request.forbiddenMethod (Request.method traceRequest) = true
  /\ URL.pathname (Request.url traceRequest) <> js "/"
  /\ newHandler parseExample parseHostExample fetchExample configExample
       traceRequest = ([], Throw TypeError).
Proof.
  assert (P : URL.pathname (Request.url traceRequest) <> js "/")
    by (vm_compute; discriminate).
  split; [reflexivity|]. split; [exact P|].
  apply (proj2 (rejected_request_never_forwarded parseExample
                  parseHostExample fetchExample configExample traceRequest
                  (or_introl eq_refl)) P).
Defined.

Lemma invalid_config_value_blocks_proxy_witness :
  Headers.validValue (Headers.normalize (apiKey (ory brokenConfig))) = false
  /\ URL.pathname (Request.url loginRequest) <> js "/"
  /\ newHandler parseExample parseHostExample fetchExample brokenConfig
       loginRequest = ([], Throw TypeError).
Proof.
  assert (P : URL.pathname (Request.url loginRequest) <> js "/")
    by (vm_compute; discriminate).
  split; [reflexivity|]. split; [exact P|].
  apply (proj2 (invalid_config_value_blocks_proxy parseExample
                  parseHostExample fetchExample brokenConfig loginRequest
                  (or_intror eq_refl)) P).
Defined.


Lemma nothing_added_witness :
  fetched redirectOnce = true
  /\ exists out,
       newResponseRewriter parseExample (js "upstream.example.com")
         (js "https://app.example.org") redirectOnce = Normal out
       /\ Headers.has (Response.headers out) (js "Set-Cookie")
          = Headers.has (Response.headers redirectOnce) (js "Set-Cookie")
       /\ Headers.has (Response.headers out) (js "Location")
          = Headers.has (Response.headers redirectOnce) (js "Location")
       /\ (Response.body out = None <-> Response.body redirectOnce = None).
Proof.
  split; [reflexivity|].
  apply (nothing_added parseExample (js "upstream.example.com")
           (js "https://app.example.org") upstreamExample publicExample);
    reflexivity.
Defined.

Lemma set_cookie_count_witness :
  fetched expiresCookie = true
  /\ Headers.get (Response.headers expiresCookie) (js "Set-Cookie")
     = Some (js "session=abc; Expires=Wed, 21 Oct 2026 07:28:00 GMT; Path=/")
  /\ exists out,
       newResponseRewriter parseExample (js "upstream.example.com")
         (js "https://app.example.org") expiresCookie = Normal out
       /\ length (Headers.values (Response.headers out) (js "Set-Cookie"))
          = S (count_occ N.eq_dec
                 (js "session=abc; Expires=Wed, 21 Oct 2026 07:28:00 GMT; Path=/")
                 44).
Proof.
  split; [reflexivity|]. split; [reflexivity|].
  apply (set_cookie_count parseExample (js "upstream.example.com")
           (js "https://app.example.org") upstreamExample publicExample);
    reflexivity.
Defined.

Lemma public_origin_parsed_for_cookies_only_witness :
  parseExample (js "app.example.org") = None
  /\ (exists out,
        newResponseRewriter parseExample (js "upstream.example.com")
          (js "app.example.org") redirectOnce = Normal out
        /\ Response.status out = Response.status redirectOnce)
  /\ newResponseRewriter parseExample (js "upstream.example.com")
       (js "app.example.org") cookieResponse = Throw TypeError.
Proof.
  split; [reflexivity|]. split.
  - apply (proj1 (public_origin_parsed_for_cookies_only parseExample
                    (js "upstream.example.com") (js "app.example.org")
                    upstreamExample eq_refl eq_refl redirectOnce
                    eq_refl eq_refl)).
    reflexivity.
  - apply (proj2 (public_origin_parsed_for_cookies_only parseExample
                    (js "upstream.example.com") (js "app.example.org")
                    upstreamExample eq_refl eq_refl cookieResponse
                    eq_refl eq_refl)).
    reflexivity.
Defined.

Lemma upstream_answer_handed_on_witness :
  URL.pathname (Request.url loginRequest) <> js "/"
  /\ exists out res,
       newHandler parseExample parseHostExample fetchExample configExample
         loginRequest = ([out], Normal res)
       /\ Response.status res = Response.status redirectOnce
       /\ Response.statusText res = Response.statusText redirectOnce
       /\ Headers.get (Response.headers res) (js "Location")
          = match Headers.get (Response.headers redirectOnce) (js "Location")
            with
            | None => None
            | Some l =>
                Some (Headers.normalize
                        (JSString.replace l (URL.origin upstreamExample)
                           (appOrigin configExample)))
            end.
Proof.
  assert (P : URL.pathname (Request.url loginRequest) <> js "/")
    by (vm_compute; discriminate).
  split; [exact P|].
  destruct (newRequestRewriter_spec parseHostExample configExample
              loginRequest eq_refl eq_refl eq_refl) as [out [E _]].
  exists out.
  apply (upstream_answer_handed_on parseExample parseHostExample fetchExample
           configExample loginRequest out redirectOnce upstreamExample
           publicExample P E); reflexivity.
Defined.

Lemma location_first_occurrence_only_witness :
  fetched redirectTwice = true
  /\ Headers.get (Response.headers redirectTwice) (js "Location")
     = Some ([] ++ URL.origin upstreamExample
             ++ js "/self-service/login?return_to=https://upstream.example.com/ui/welcome")
  /\ exists out,
       newResponseRewriter parseExample (js "upstream.example.com")
         (js "https://app.example.org") redirectTwice = Normal out
       /\ Headers.get (Response.headers out) (js "Location")
          = Some (Headers.normalize
                    ([] ++ js "https://app.example.org"
                     ++ js "/self-service/login?return_to=https://upstream.example.com/ui/welcome")).
Proof.
  split; [reflexivity|]. split; [reflexivity|].
  apply (location_first_occurrence_only parseExample
           (js "upstream.example.com") (js "https://app.example.org")
           upstreamExample publicExample); try reflexivity.
  apply occursb_false. vm_compute. reflexivity.
Defined.

Lemma set_cookie_pieces_rewritten_witness :
  fetched twoCookies = true
  /\ exists out,
       newResponseRewriter parseExample (js "upstream.example.com")
         (js "https://app.example.org") twoCookies = Normal out
       /\ Forall2
            (fun piece v =>
               exists w,
                 rewriteCookie upstreamExample publicExample piece = Normal w
                 /\ v = Headers.normalize w)
            (JSString.split
               (js "session=abc; Domain=upstream.example.com, csrf=xyz; Domain=example.com")
               (js ","))
            (Headers.values (Response.headers out) (js "Set-Cookie")).
Proof.
  split; [reflexivity|].
  apply (set_cookie_pieces_rewritten parseExample (js "upstream.example.com")
           (js "https://app.example.org") upstreamExample publicExample);
    reflexivity.
Defined.
